(** * KnowledgeHub: signaling relay and live-session client

    A shallow embedding of the real-time core of the repository:

    - [backend/index.js]: the socket.io handlers [join-room], [offer],
      [answer], [ice-candidate], [chat-message] and [disconnecting];
    - [LiveVideoChat.tsx]: the client handlers that drive negotiation,
      chat and session recording.

    JavaScript strings are sequences of UTF-16 code units ([list N]).
    The socket.io adapter, the browser's [RTCPeerConnection],
    [MediaStreamTrack] and [MediaRecorder] are library objects: their
    documented behaviour is modelled in the modules [SocketIO] and
    [Browser]; every outcome that the platform decides (a promise that
    rejects, a constructor that throws) is a field of [Browser.Platform],
    over which the statements quantify.  Each event handler is one atomic
    step: an [async] handler runs to its end with the outcomes the
    platform gives it. *)

From stdpp Require Import base numbers strings pretty list gmap.

(** ** JavaScript values *)

Module JS.

Abbreviation jsstring := (list N).

(** An ASCII literal as code units. *)
Definition lit (s : string) : jsstring :=
  (λ a, Ascii.N_of_ascii a) <$> String.list_ascii_of_string s.

(** [WhiteSpace] and [LineTerminator] code points of ECMAScript, the
    ones [String.prototype.trim] strips. *)
Definition is_ws (c : N) : bool :=
  bool_decide (c ∈ [0x09; 0x0A; 0x0B; 0x0C; 0x0D; 0x20; 0xA0; 0x1680;
                    0x2028; 0x2029; 0x202F; 0x205F; 0x3000; 0xFEFF]%N)
  || ((0x2000 <=? c)%N && (c <=? 0x200A)%N).

Fixpoint trimStart (s : jsstring) : jsstring :=
  match s with
  | c :: s' => if is_ws c then trimStart s' else s
  | [] => []
  end.

Definition trimEnd (s : jsstring) : jsstring :=
  reverse (trimStart (reverse s)).

Definition trim (s : jsstring) : jsstring := trimEnd (trimStart s).

(** Truthiness of a value that is a string or [undefined]. *)
Definition truthy (v : option jsstring) : bool :=
  match v with
  | Some (_ :: _) => true
  | _ => false
  end.

(** [v || d] on such a value. *)
Definition or_default (v : option jsstring) (d : jsstring) : jsstring :=
  match v with
  | Some (c :: s) => c :: s
  | _ => d
  end.

(** [s.replace(/[:.]/g, "-")]. *)
Definition replace_colon_dot (s : jsstring) : jsstring :=
  (λ c, if bool_decide (c = 0x3A%N ∨ c = 0x2E%N) then 0x2D%N else c) <$> s.

End JS.

Import JS.

(** ** Payloads on the wire *)

Inductive SdpType := SdpOffer | SdpAnswer.

Record SDP := { sdp_type : SdpType; sdp_text : jsstring }.

Record Candidate := { cand_text : jsstring }.

#[global] Instance SdpType_eq_dec : EqDecision SdpType.
Proof. solve_decision. Defined.

#[global] Instance SDP_eq_dec : EqDecision SDP.
Proof. solve_decision. Defined.

#[global] Instance Candidate_eq_dec : EqDecision Candidate.
Proof. solve_decision. Defined.

(** Events a client emits to the server.  A missing field of the payload
  is [None]. *)
Inductive ClientMsg :=
| JoinRoom (roomId userName : option jsstring)
| SendOffer (targetId : option jsstring) (sdp : option SDP)
| SendAnswer (targetId : option jsstring) (sdp : option SDP)
| SendIce (targetId : option jsstring) (candidate : option Candidate)
| SendChat (roomId sender message : option jsstring).

(** Events the server emits to a client. *)
Inductive ServerMsg :=
| ExistingParticipants (participants : list jsstring)
| UserJoined (socketId : jsstring) (userName : option jsstring)
| UserLeft (socketId : jsstring)
| Offer (from : jsstring) (sdp : SDP)
| Answer (from : jsstring) (sdp : SDP)
| IceCandidate (from : jsstring) (candidate : Candidate)
| ChatMessage (sender message : jsstring) (timestamp : N).

#[global] Instance ServerMsg_eq_dec : EqDecision ServerMsg.
Proof. solve_decision. Defined.

#[global] Instance ClientMsg_eq_dec : EqDecision ClientMsg.
Proof. solve_decision. Defined.

(** ** socket.io: the in-memory adapter *)

Module SocketIO.

(** [rooms]: room -> the sockets in it; [sids]: socket -> the rooms it
    is in.  Both are JavaScript [Set]s, kept in insertion order. *)
Record Adapter := {
  rooms : gmap (list N) (list jsstring);
  sids : gmap (list N) (list jsstring)
}.

Definition empty : Adapter := {| rooms := ∅; sids := ∅ |}.

(** [Set.prototype.add]. *)
Definition set_add (x : jsstring) (l : list jsstring) : list jsstring :=
  if decide (x ∈ l) then l else l ++ [x].

(** [Set.prototype.delete]. *)
Definition set_delete (x : jsstring) (l : list jsstring) : list jsstring :=
  filter (λ y, y ≠ x) l.

(** [adapter.rooms.get(room) || new Set()]. *)
Definition members (a : Adapter) (room : jsstring) : list jsstring :=
  default [] (rooms a !! room).

(** [socket.rooms]. *)
Definition socketRooms (a : Adapter) (id : jsstring) : list jsstring :=
  default [] (sids a !! id).

(** [socket.join(room)]. *)
Definition join (id room : jsstring) (a : Adapter) : Adapter :=
  {| rooms := <[room := set_add id (members a room)]> (rooms a);
     sids := <[id := set_add room (socketRooms a id)]> (sids a) |}.

(** A new connection: the socket joins the room named by its own id. *)
Definition connect (id : jsstring) (a : Adapter) : Adapter := join id id a.

(** Leaving one room; a room left empty is deleted. *)
Definition leave_room (id : jsstring) (rs : gmap (list N) (list jsstring))
    (room : jsstring) : gmap (list N) (list jsstring) :=
  match rs !! room with
  | Some l =>
      match set_delete id l with
      | [] => delete room rs
      | l' => <[room := l']> rs
      end
  | None => rs
  end.

(** After the [disconnecting] event: the socket leaves all its rooms. *)
Definition disconnect (id : jsstring) (a : Adapter) : Adapter :=
  {| rooms := foldl (leave_room id) (rooms a) (socketRooms a id);
     sids := delete id (sids a) |}.

(** [io.to(room).emit(ev)]: one packet to every socket in the room. *)
Definition io_to (a : Adapter) (room : jsstring) (ev : ServerMsg)
    : list (jsstring * ServerMsg) :=
  (λ h, (h, ev)) <$> members a room.

(** [socket.to(room).emit(ev)]: every socket in the room except the
    sender. *)
Definition socket_to (a : Adapter) (sock room : jsstring) (ev : ServerMsg)
    : list (jsstring * ServerMsg) :=
  (λ h, (h, ev)) <$> filter (λ h, h ≠ sock) (members a room).

(** [socket.emit(ev)]. *)
Definition socket_emit (sock : jsstring) (ev : ServerMsg)
    : list (jsstring * ServerMsg) :=
  [(sock, ev)].

(** What leaving does to one entry of [rooms]. *)
Definition leave_opt (id : jsstring) (o : option (list jsstring))
    : option (list jsstring) :=
  match o with
  | Some l => match set_delete id l with [] => None | l' => Some l' end
  | None => None
  end.

(** The adapter's representation invariant: the sets hold no duplicates
    and the two maps mirror each other. *)
Record wf (a : Adapter) : Prop := {
  wf_rooms : ∀ r l, rooms a !! r = Some l → NoDup l;
  wf_sids : ∀ s l, sids a !! s = Some l → NoDup l;
  wf_link : ∀ id r, id ∈ members a r ↔ r ∈ socketRooms a id
}.

End SocketIO.

(** ** backend/index.js: the signaling handlers *)

Module Server.

Import SocketIO.

(** The adapter and [socket.data] of every socket. *)
Record State := {
  adapter : Adapter;
  data : gmap (list N) (jsstring * option jsstring)
}.

Definition init : State := {| adapter := SocketIO.empty; data := ∅ |}.

Abbreviation Out := (list (jsstring * ServerMsg)).

Definition on_connection (sock : jsstring) (st : State) : State :=
  {| adapter := connect sock (adapter st); data := data st |}.

Definition on_join_room (sock : jsstring) (roomId userName : option jsstring)
    (st : State) : State * Out :=
  match roomId with
  | Some (c :: r) =>
      let roomId := c :: r in
      let a := join sock roomId (adapter st) in
      let room := members a roomId in
      let otherParticipants := filter (λ id, id ≠ sock) room in
      ({| adapter := a; data := <[sock := (roomId, userName)]> (data st) |},
       socket_emit sock (ExistingParticipants otherParticipants)
         ++ socket_to a sock roomId (UserJoined sock userName))
  | _ => (st, [])
  end.

Definition on_offer (sock : jsstring) (targetId : option jsstring)
    (sdp : option SDP) (st : State) : State * Out :=
  match targetId, sdp with
  | Some (c :: t), Some sdp => (st, io_to (adapter st) (c :: t) (Offer sock sdp))
  | _, _ => (st, [])
  end.

Definition on_answer (sock : jsstring) (targetId : option jsstring)
    (sdp : option SDP) (st : State) : State * Out :=
  match targetId, sdp with
  | Some (c :: t), Some sdp => (st, io_to (adapter st) (c :: t) (Answer sock sdp))
  | _, _ => (st, [])
  end.

Definition on_ice_candidate (sock : jsstring) (targetId : option jsstring)
    (candidate : option Candidate) (st : State) : State * Out :=
  match targetId, candidate with
  | Some (c :: t), Some candidate =>
      (st, io_to (adapter st) (c :: t) (IceCandidate sock candidate))
  | _, _ => (st, [])
  end.

(** [now] is [Date.now()]. *)
Definition on_chat_message (now : N) (roomId sender message : option jsstring)
    (st : State) : State * Out :=
  if truthy roomId && truthy (trim <$> message) then
    (st, io_to (adapter st) (default [] roomId)
           (ChatMessage (or_default sender (lit "Participant"))
              (trim (default [] message)) now))
  else (st, []).

Definition on_disconnecting (sock : jsstring) (st : State) : Out :=
  concat ((λ roomId,
             if decide (roomId ≠ sock)
             then socket_to (adapter st) sock roomId (UserLeft sock)
             else [])
          <$> socketRooms (adapter st) sock).

(** The transport closes: [disconnecting] fires, then the socket leaves
    its rooms. *)
Definition on_disconnect (sock : jsstring) (st : State) : State * Out :=
  ({| adapter := disconnect sock (adapter st); data := delete sock (data st) |},
   on_disconnecting sock st).

(** What a connected socket can make the server do. *)
Inductive Input :=
| Connect
| Emit (m : ClientMsg)
| Disconnect.

Definition handle (now : N) (sock : jsstring) (i : Input) (st : State)
    : State * Out :=
  match i with
  | Connect => (on_connection sock st, [])
  | Emit (JoinRoom roomId userName) => on_join_room sock roomId userName st
  | Emit (SendOffer targetId sdp) => on_offer sock targetId sdp st
  | Emit (SendAnswer targetId sdp) => on_answer sock targetId sdp st
  | Emit (SendIce targetId candidate) => on_ice_candidate sock targetId candidate st
  | Emit (SendChat roomId sender message) =>
      on_chat_message now roomId sender message st
  | Disconnect => on_disconnect sock st
  end.

(** A run of the event loop: the final state and everything emitted. *)
Fixpoint run (evs : list (N * jsstring * Input)) (st : State) : State * Out :=
  match evs with
  | [] => (st, [])
  | (now, sock, i) :: evs' =>
      let '(st1, out1) := handle now sock i st in
      let '(st2, out2) := run evs' st1 in
      (st2, out1 ++ out2)
  end.

(** The packets of [out] addressed to socket [h], in order. *)
Definition inbox (h : jsstring) (out : Out) : list ServerMsg :=
  snd <$> filter (λ p, p.1 = h) out.

End Server.

(** ** The browser: media tracks, peer connections, recorders *)

Module Browser.

Inductive TrackKind := Audio | Video.

Inductive ReadyState := Live | Ended.

Record Track := { kind : TrackKind; enabled : bool; readyState : ReadyState }.

#[global] Instance TrackKind_eq_dec : EqDecision TrackKind.
Proof. solve_decision. Defined.

#[global] Instance ReadyState_eq_dec : EqDecision ReadyState.
Proof. solve_decision. Defined.

#[global] Instance Track_eq_dec : EqDecision Track.
Proof. solve_decision. Defined.

(** The [MediaStreamTrack] objects of the page.  A track object is its
    index in this store, so two streams that hold the same index share
    the object. *)
Abbreviation Heap := (list Track).

(** A [MediaStream]: the track objects it holds. *)
Abbreviation Stream := (list nat).

Abbreviation Blob := (list N).

Definition alloc (tr : Track) (h : Heap) : Heap * nat := (h ++ [tr], length h).

(** A track after [stop()]. *)
Definition ended (tr : Track) : Track :=
  {| kind := kind tr; enabled := enabled tr; readyState := Ended |}.

(** [track.stop()]. *)
Definition track_stop (t : nat) (h : Heap) : Heap :=
  match h !! t with
  | Some tr => <[t := ended tr]> h
  | None => h
  end.

(** [track.clone()]: a new object with the state of the old one. *)
Definition track_clone (t : nat) (h : Heap) : Heap * nat :=
  alloc (default {| kind := Audio; enabled := false; readyState := Ended |} (h !! t)) h.

Definition has_kind (h : Heap) (k : TrackKind) (t : nat) : bool :=
  bool_decide (kind <$> h !! t = Some k).

(** [stream.getAudioTracks()] and [stream.getVideoTracks()];
    [stream.getTracks()] is the stream itself. *)
Definition getAudioTracks (h : Heap) (stream : Stream) : list nat :=
  filter (λ t, has_kind h Audio t = true) stream.

Definition getVideoTracks (h : Heap) (stream : Stream) : list nat :=
  filter (λ t, has_kind h Video t = true) stream.

(** [track.enabled = b]. *)
Definition set_enabled (b : bool) (t : nat) (h : Heap) : Heap :=
  match h !! t with
  | Some tr =>
      <[t := {| kind := kind tr; enabled := b; readyState := readyState tr |}]> h
  | None => h
  end.

(** [track.readyState === "live"]. *)
Definition is_live (h : Heap) (t : nat) : bool :=
  bool_decide (readyState <$> h !! t = Some Live).

(** [stream.getTracks().forEach(track => track.stop())]. *)
Definition stop_tracks (stream : Stream) (h : Heap) : Heap :=
  foldl (λ h t, track_stop t h) h stream.

(** [stream.addTrack(track)]: nothing happens if the track is in it. *)
Definition addTrack (t : nat) (stream : Stream) : Stream :=
  if decide (t ∈ stream) then stream else stream ++ [t].

(** The part of an [RTCPeerConnection] the component reads or drives:
    both descriptions, the remote candidates it accepted, and the tracks
    of its senders. *)
Record PeerConn := {
  localDescription : option SDP;
  remoteDescription : option SDP;
  candidates : list Candidate;
  senders : list nat
}.

(** [new RTCPeerConnection({ iceServers })]. *)
Definition new_pc : PeerConn :=
  {| localDescription := None; remoteDescription := None;
     candidates := []; senders := [] |}.

Definition pc_setLocal (d : SDP) (pc : PeerConn) : PeerConn :=
  {| localDescription := Some d; remoteDescription := remoteDescription pc;
     candidates := candidates pc; senders := senders pc |}.

Definition pc_setRemote (d : SDP) (pc : PeerConn) : PeerConn :=
  {| localDescription := localDescription pc; remoteDescription := Some d;
     candidates := candidates pc; senders := senders pc |}.

Definition pc_addCandidate (c : Candidate) (pc : PeerConn) : PeerConn :=
  {| localDescription := localDescription pc;
     remoteDescription := remoteDescription pc;
     candidates := candidates pc ++ [c]; senders := senders pc |}.

Definition pc_setSenders (l : list nat) (pc : PeerConn) : PeerConn :=
  {| localDescription := localDescription pc;
     remoteDescription := remoteDescription pc;
     candidates := candidates pc; senders := l |}.

(** A [MediaRecorder]: the stream it records and its MIME type. *)
Record Recorder := {
  rec_stream : Stream;
  rec_mimeType : jsstring
}.

(** What the platform decides: whether a promise resolves or rejects,
    whether a constructor throws, and the descriptions it generates.
    [getDisplayMedia] is [None] when the promise rejects and otherwise
    tells whether the captured stream has a video track. *)
Record Platform := {
  getUserMedia_ok : bool → bool → bool;
  media_error : option jsstring;
  play_ok : bool;
  getDisplayMedia : option bool;
  replaceTrack_ok : bool;
  createOffer : PeerConn → option SDP;
  createAnswer : PeerConn → option SDP;
  setLocalDescription_ok : PeerConn → SDP → bool;
  setRemoteDescription_ok : PeerConn → SDP → bool;
  addIceCandidate_ok : PeerConn → Candidate → bool;
  MediaRecorder_ok : Stream → jsstring → bool;
  recorder_start_ok : bool
}.

(** A platform on which every operation succeeds, except the two that
    WebRTC makes fail while [remoteDescription] is null: [createAnswer]
    and [addIceCandidate] (both reject with [InvalidStateError]). *)
Definition webrtc (offer answer : jsstring) : Platform :=
  {| getUserMedia_ok := λ _ _, true;
     media_error := None;
     play_ok := true;
     getDisplayMedia := Some true;
     replaceTrack_ok := true;
     createOffer := λ _, Some {| sdp_type := SdpOffer; sdp_text := offer |};
     createAnswer := λ pc,
       match remoteDescription pc with
       | Some _ => Some {| sdp_type := SdpAnswer; sdp_text := answer |}
       | None => None
       end;
     setLocalDescription_ok := λ _ _, true;
     setRemoteDescription_ok := λ _ _, true;
     addIceCandidate_ok := λ pc _,
       match remoteDescription pc with Some _ => true | None => false end;
     MediaRecorder_ok := λ _ _, true;
     recorder_start_ok := true |}.

End Browser.

(** ** LiveVideoChat.tsx: the client component *)

Module Client.

Import Browser.

Record Props := {
  teacherName : option jsstring;
  studentName : option jsstring;
  meetingLink : option jsstring;
  roomId : option jsstring;
  currentUserName : option jsstring;
  onRecordingReady : bool
}.

(** [baseName.trim() || "Participant"], where [baseName] is
    [currentUserName ?? studentName ?? "Participant"] and a missing
    [studentName] is ["Student"]. *)
Definition activeUserName (p : Props) : jsstring :=
  let studentName := default (lit "Student") (studentName p) in
  let baseName := default studentName (currentUserName p) in
  or_default (Some (trim baseName)) (lit "Participant").

Definition is_alnum (c : N) : bool :=
  ((0x30 <=? c) && (c <=? 0x39) || (0x41 <=? c) && (c <=? 0x5A)
   || (0x61 <=? c) && (c <=? 0x7A))%N.

Definition derivedRoomId (p : Props) : jsstring :=
  if truthy (trim <$> roomId p) then trim (default [] (roomId p))
  else
    match meetingLink p with
    | Some (c :: l) =>
        match filter (λ c, is_alnum c = true) (c :: l) with
        | [] => lit "knowledgehub-live-room"
        | sanitized => lit "room-" ++ sanitized
        end
    | _ => lit "knowledgehub-live-room"
    end.

Record ChatEntry := {
  chat_id : jsstring;
  chat_sender : jsstring;
  chat_message : jsstring;
  chat_timestamp : N
}.

Record RecordingEntry := {
  entry_id : jsstring;
  entry_url : jsstring;
  entry_filename : jsstring;
  entry_duration : nat;
  entry_createdAt : N
}.

Record LiveSessionRecording := {
  id : jsstring;
  filename : jsstring;
  duration : nat;
  createdAt : jsstring;
  mimeType : jsstring;
  dataUrl : jsstring
}.

(** The state of the mounted component.  [callDuration] and [newMessage],
    which no handler below reads, are left out. *)
Record State := {
  (* React state *)
  isVideoOn : bool;
  isAudioOn : bool;
  isScreenSharing : bool;
  hasStream : bool;
  chatMessages : list ChatEntry;
  isConnected : bool;
  cameraError : option jsstring;
  remoteHasStream : bool;
  systemStatus : jsstring;
  isRecording : bool;
  recordingDuration : nat;
  recordings : list RecordingEntry;
  (* refs *)
  localStreamRef : option Stream;
  remoteStreamRef : option Stream;
  screenTrackRef : option nat;
  peerRef : option PeerConn;
  remoteSocketIdRef : option jsstring;
  mediaRecorderRef : option Recorder;
  recordingChunksRef : list Blob;
  recordingTimerRef : bool;
  recordingDurationRef : nat;
  (* the browser: the track objects, the track whose [onended] is set,
     and [socket.connected] *)
  tracks : Heap;
  screenOnended : option nat;
  connected : bool;
  (* what left the component: socket emits, [onRecordingReady] and
     [onEndCall] calls *)
  sent : list ClientMsg;
  exported : list LiveSessionRecording;
  endedCalls : nat
}.

(** Field updates: a [setX] of React, or an assignment to [xRef.current]. *)
Definition setIsVideoOn (v : bool) (s : State) : State :=
  Build_State v (isAudioOn s) (isScreenSharing s) (hasStream s)
    (chatMessages s) (isConnected s) (cameraError s) (remoteHasStream s)
    (systemStatus s) (isRecording s) (recordingDuration s) (recordings s)
    (localStreamRef s) (remoteStreamRef s) (screenTrackRef s) (peerRef s)
    (remoteSocketIdRef s) (mediaRecorderRef s) (recordingChunksRef s)
    (recordingTimerRef s) (recordingDurationRef s) (tracks s)
    (screenOnended s) (connected s) (sent s) (exported s) (endedCalls s).

Definition setIsAudioOn (v : bool) (s : State) : State :=
  Build_State (isVideoOn s) v (isScreenSharing s) (hasStream s)
    (chatMessages s) (isConnected s) (cameraError s) (remoteHasStream s)
    (systemStatus s) (isRecording s) (recordingDuration s) (recordings s)
    (localStreamRef s) (remoteStreamRef s) (screenTrackRef s) (peerRef s)
    (remoteSocketIdRef s) (mediaRecorderRef s) (recordingChunksRef s)
    (recordingTimerRef s) (recordingDurationRef s) (tracks s)
    (screenOnended s) (connected s) (sent s) (exported s) (endedCalls s).

Definition setIsScreenSharing (v : bool) (s : State) : State :=
  Build_State (isVideoOn s) (isAudioOn s) v (hasStream s) (chatMessages s)
    (isConnected s) (cameraError s) (remoteHasStream s) (systemStatus s)
    (isRecording s) (recordingDuration s) (recordings s) (localStreamRef s)
    (remoteStreamRef s) (screenTrackRef s) (peerRef s) (remoteSocketIdRef s)
    (mediaRecorderRef s) (recordingChunksRef s) (recordingTimerRef s)
    (recordingDurationRef s) (tracks s) (screenOnended s) (connected s)
    (sent s) (exported s) (endedCalls s).

Definition setHasStream (v : bool) (s : State) : State :=
  Build_State (isVideoOn s) (isAudioOn s) (isScreenSharing s) v
    (chatMessages s) (isConnected s) (cameraError s) (remoteHasStream s)
    (systemStatus s) (isRecording s) (recordingDuration s) (recordings s)
    (localStreamRef s) (remoteStreamRef s) (screenTrackRef s) (peerRef s)
    (remoteSocketIdRef s) (mediaRecorderRef s) (recordingChunksRef s)
    (recordingTimerRef s) (recordingDurationRef s) (tracks s)
    (screenOnended s) (connected s) (sent s) (exported s) (endedCalls s).

Definition setChatMessages (v : list ChatEntry) (s : State) : State :=
  Build_State (isVideoOn s) (isAudioOn s) (isScreenSharing s) (hasStream s)
    v (isConnected s) (cameraError s) (remoteHasStream s) (systemStatus s)
    (isRecording s) (recordingDuration s) (recordings s) (localStreamRef s)
    (remoteStreamRef s) (screenTrackRef s) (peerRef s) (remoteSocketIdRef s)
    (mediaRecorderRef s) (recordingChunksRef s) (recordingTimerRef s)
    (recordingDurationRef s) (tracks s) (screenOnended s) (connected s)
    (sent s) (exported s) (endedCalls s).

Definition setIsConnected (v : bool) (s : State) : State :=
  Build_State (isVideoOn s) (isAudioOn s) (isScreenSharing s) (hasStream s)
    (chatMessages s) v (cameraError s) (remoteHasStream s) (systemStatus s)
    (isRecording s) (recordingDuration s) (recordings s) (localStreamRef s)
    (remoteStreamRef s) (screenTrackRef s) (peerRef s) (remoteSocketIdRef s)
    (mediaRecorderRef s) (recordingChunksRef s) (recordingTimerRef s)
    (recordingDurationRef s) (tracks s) (screenOnended s) (connected s)
    (sent s) (exported s) (endedCalls s).

Definition setCameraError (v : option jsstring) (s : State) : State :=
  Build_State (isVideoOn s) (isAudioOn s) (isScreenSharing s) (hasStream s)
    (chatMessages s) (isConnected s) v (remoteHasStream s) (systemStatus s)
    (isRecording s) (recordingDuration s) (recordings s) (localStreamRef s)
    (remoteStreamRef s) (screenTrackRef s) (peerRef s) (remoteSocketIdRef s)
    (mediaRecorderRef s) (recordingChunksRef s) (recordingTimerRef s)
    (recordingDurationRef s) (tracks s) (screenOnended s) (connected s)
    (sent s) (exported s) (endedCalls s).

Definition setRemoteHasStream (v : bool) (s : State) : State :=
  Build_State (isVideoOn s) (isAudioOn s) (isScreenSharing s) (hasStream s)
    (chatMessages s) (isConnected s) (cameraError s) v (systemStatus s)
    (isRecording s) (recordingDuration s) (recordings s) (localStreamRef s)
    (remoteStreamRef s) (screenTrackRef s) (peerRef s) (remoteSocketIdRef s)
    (mediaRecorderRef s) (recordingChunksRef s) (recordingTimerRef s)
    (recordingDurationRef s) (tracks s) (screenOnended s) (connected s)
    (sent s) (exported s) (endedCalls s).

Definition setSystemStatus (v : jsstring) (s : State) : State :=
  Build_State (isVideoOn s) (isAudioOn s) (isScreenSharing s) (hasStream s)
    (chatMessages s) (isConnected s) (cameraError s) (remoteHasStream s) v
    (isRecording s) (recordingDuration s) (recordings s) (localStreamRef s)
    (remoteStreamRef s) (screenTrackRef s) (peerRef s) (remoteSocketIdRef s)
    (mediaRecorderRef s) (recordingChunksRef s) (recordingTimerRef s)
    (recordingDurationRef s) (tracks s) (screenOnended s) (connected s)
    (sent s) (exported s) (endedCalls s).

Definition setIsRecording (v : bool) (s : State) : State :=
  Build_State (isVideoOn s) (isAudioOn s) (isScreenSharing s) (hasStream s)
    (chatMessages s) (isConnected s) (cameraError s) (remoteHasStream s)
    (systemStatus s) v (recordingDuration s) (recordings s)
    (localStreamRef s) (remoteStreamRef s) (screenTrackRef s) (peerRef s)
    (remoteSocketIdRef s) (mediaRecorderRef s) (recordingChunksRef s)
    (recordingTimerRef s) (recordingDurationRef s) (tracks s)
    (screenOnended s) (connected s) (sent s) (exported s) (endedCalls s).

Definition setRecordingDuration (v : nat) (s : State) : State :=
  Build_State (isVideoOn s) (isAudioOn s) (isScreenSharing s) (hasStream s)
    (chatMessages s) (isConnected s) (cameraError s) (remoteHasStream s)
    (systemStatus s) (isRecording s) v (recordings s) (localStreamRef s)
    (remoteStreamRef s) (screenTrackRef s) (peerRef s) (remoteSocketIdRef s)
    (mediaRecorderRef s) (recordingChunksRef s) (recordingTimerRef s)
    (recordingDurationRef s) (tracks s) (screenOnended s) (connected s)
    (sent s) (exported s) (endedCalls s).

Definition setRecordings (v : list RecordingEntry) (s : State) : State :=
  Build_State (isVideoOn s) (isAudioOn s) (isScreenSharing s) (hasStream s)
    (chatMessages s) (isConnected s) (cameraError s) (remoteHasStream s)
    (systemStatus s) (isRecording s) (recordingDuration s) v
    (localStreamRef s) (remoteStreamRef s) (screenTrackRef s) (peerRef s)
    (remoteSocketIdRef s) (mediaRecorderRef s) (recordingChunksRef s)
    (recordingTimerRef s) (recordingDurationRef s) (tracks s)
    (screenOnended s) (connected s) (sent s) (exported s) (endedCalls s).

Definition set_localStreamRef (v : option Stream) (s : State) : State :=
  Build_State (isVideoOn s) (isAudioOn s) (isScreenSharing s) (hasStream s)
    (chatMessages s) (isConnected s) (cameraError s) (remoteHasStream s)
    (systemStatus s) (isRecording s) (recordingDuration s) (recordings s) v
    (remoteStreamRef s) (screenTrackRef s) (peerRef s) (remoteSocketIdRef s)
    (mediaRecorderRef s) (recordingChunksRef s) (recordingTimerRef s)
    (recordingDurationRef s) (tracks s) (screenOnended s) (connected s)
    (sent s) (exported s) (endedCalls s).

Definition set_remoteStreamRef (v : option Stream) (s : State) : State :=
  Build_State (isVideoOn s) (isAudioOn s) (isScreenSharing s) (hasStream s)
    (chatMessages s) (isConnected s) (cameraError s) (remoteHasStream s)
    (systemStatus s) (isRecording s) (recordingDuration s) (recordings s)
    (localStreamRef s) v (screenTrackRef s) (peerRef s)
    (remoteSocketIdRef s) (mediaRecorderRef s) (recordingChunksRef s)
    (recordingTimerRef s) (recordingDurationRef s) (tracks s)
    (screenOnended s) (connected s) (sent s) (exported s) (endedCalls s).

Definition set_screenTrackRef (v : option nat) (s : State) : State :=
  Build_State (isVideoOn s) (isAudioOn s) (isScreenSharing s) (hasStream s)
    (chatMessages s) (isConnected s) (cameraError s) (remoteHasStream s)
    (systemStatus s) (isRecording s) (recordingDuration s) (recordings s)
    (localStreamRef s) (remoteStreamRef s) v (peerRef s)
    (remoteSocketIdRef s) (mediaRecorderRef s) (recordingChunksRef s)
    (recordingTimerRef s) (recordingDurationRef s) (tracks s)
    (screenOnended s) (connected s) (sent s) (exported s) (endedCalls s).

Definition set_peerRef (v : option PeerConn) (s : State) : State :=
  Build_State (isVideoOn s) (isAudioOn s) (isScreenSharing s) (hasStream s)
    (chatMessages s) (isConnected s) (cameraError s) (remoteHasStream s)
    (systemStatus s) (isRecording s) (recordingDuration s) (recordings s)
    (localStreamRef s) (remoteStreamRef s) (screenTrackRef s) v
    (remoteSocketIdRef s) (mediaRecorderRef s) (recordingChunksRef s)
    (recordingTimerRef s) (recordingDurationRef s) (tracks s)
    (screenOnended s) (connected s) (sent s) (exported s) (endedCalls s).

Definition set_remoteSocketIdRef (v : option jsstring) (s : State) : State :=
  Build_State (isVideoOn s) (isAudioOn s) (isScreenSharing s) (hasStream s)
    (chatMessages s) (isConnected s) (cameraError s) (remoteHasStream s)
    (systemStatus s) (isRecording s) (recordingDuration s) (recordings s)
    (localStreamRef s) (remoteStreamRef s) (screenTrackRef s) (peerRef s) v
    (mediaRecorderRef s) (recordingChunksRef s) (recordingTimerRef s)
    (recordingDurationRef s) (tracks s) (screenOnended s) (connected s)
    (sent s) (exported s) (endedCalls s).

Definition set_mediaRecorderRef (v : option Recorder) (s : State) : State :=
  Build_State (isVideoOn s) (isAudioOn s) (isScreenSharing s) (hasStream s)
    (chatMessages s) (isConnected s) (cameraError s) (remoteHasStream s)
    (systemStatus s) (isRecording s) (recordingDuration s) (recordings s)
    (localStreamRef s) (remoteStreamRef s) (screenTrackRef s) (peerRef s)
    (remoteSocketIdRef s) v (recordingChunksRef s) (recordingTimerRef s)
    (recordingDurationRef s) (tracks s) (screenOnended s) (connected s)
    (sent s) (exported s) (endedCalls s).

Definition set_recordingChunksRef (v : list Blob) (s : State) : State :=
  Build_State (isVideoOn s) (isAudioOn s) (isScreenSharing s) (hasStream s)
    (chatMessages s) (isConnected s) (cameraError s) (remoteHasStream s)
    (systemStatus s) (isRecording s) (recordingDuration s) (recordings s)
    (localStreamRef s) (remoteStreamRef s) (screenTrackRef s) (peerRef s)
    (remoteSocketIdRef s) (mediaRecorderRef s) v (recordingTimerRef s)
    (recordingDurationRef s) (tracks s) (screenOnended s) (connected s)
    (sent s) (exported s) (endedCalls s).

Definition set_recordingTimerRef (v : bool) (s : State) : State :=
  Build_State (isVideoOn s) (isAudioOn s) (isScreenSharing s) (hasStream s)
    (chatMessages s) (isConnected s) (cameraError s) (remoteHasStream s)
    (systemStatus s) (isRecording s) (recordingDuration s) (recordings s)
    (localStreamRef s) (remoteStreamRef s) (screenTrackRef s) (peerRef s)
    (remoteSocketIdRef s) (mediaRecorderRef s) (recordingChunksRef s) v
    (recordingDurationRef s) (tracks s) (screenOnended s) (connected s)
    (sent s) (exported s) (endedCalls s).

Definition set_recordingDurationRef (v : nat) (s : State) : State :=
  Build_State (isVideoOn s) (isAudioOn s) (isScreenSharing s) (hasStream s)
    (chatMessages s) (isConnected s) (cameraError s) (remoteHasStream s)
    (systemStatus s) (isRecording s) (recordingDuration s) (recordings s)
    (localStreamRef s) (remoteStreamRef s) (screenTrackRef s) (peerRef s)
    (remoteSocketIdRef s) (mediaRecorderRef s) (recordingChunksRef s)
    (recordingTimerRef s) v (tracks s) (screenOnended s) (connected s)
    (sent s) (exported s) (endedCalls s).

Definition set_tracks (v : Heap) (s : State) : State :=
  Build_State (isVideoOn s) (isAudioOn s) (isScreenSharing s) (hasStream s)
    (chatMessages s) (isConnected s) (cameraError s) (remoteHasStream s)
    (systemStatus s) (isRecording s) (recordingDuration s) (recordings s)
    (localStreamRef s) (remoteStreamRef s) (screenTrackRef s) (peerRef s)
    (remoteSocketIdRef s) (mediaRecorderRef s) (recordingChunksRef s)
    (recordingTimerRef s) (recordingDurationRef s) v (screenOnended s)
    (connected s) (sent s) (exported s) (endedCalls s).

Definition set_screenOnended (v : option nat) (s : State) : State :=
  Build_State (isVideoOn s) (isAudioOn s) (isScreenSharing s) (hasStream s)
    (chatMessages s) (isConnected s) (cameraError s) (remoteHasStream s)
    (systemStatus s) (isRecording s) (recordingDuration s) (recordings s)
    (localStreamRef s) (remoteStreamRef s) (screenTrackRef s) (peerRef s)
    (remoteSocketIdRef s) (mediaRecorderRef s) (recordingChunksRef s)
    (recordingTimerRef s) (recordingDurationRef s) (tracks s) v
    (connected s) (sent s) (exported s) (endedCalls s).

Definition set_connected (v : bool) (s : State) : State :=
  Build_State (isVideoOn s) (isAudioOn s) (isScreenSharing s) (hasStream s)
    (chatMessages s) (isConnected s) (cameraError s) (remoteHasStream s)
    (systemStatus s) (isRecording s) (recordingDuration s) (recordings s)
    (localStreamRef s) (remoteStreamRef s) (screenTrackRef s) (peerRef s)
    (remoteSocketIdRef s) (mediaRecorderRef s) (recordingChunksRef s)
    (recordingTimerRef s) (recordingDurationRef s) (tracks s)
    (screenOnended s) v (sent s) (exported s) (endedCalls s).

Definition set_sent (v : list ClientMsg) (s : State) : State :=
  Build_State (isVideoOn s) (isAudioOn s) (isScreenSharing s) (hasStream s)
    (chatMessages s) (isConnected s) (cameraError s) (remoteHasStream s)
    (systemStatus s) (isRecording s) (recordingDuration s) (recordings s)
    (localStreamRef s) (remoteStreamRef s) (screenTrackRef s) (peerRef s)
    (remoteSocketIdRef s) (mediaRecorderRef s) (recordingChunksRef s)
    (recordingTimerRef s) (recordingDurationRef s) (tracks s)
    (screenOnended s) (connected s) v (exported s) (endedCalls s).

Definition set_exported (v : list LiveSessionRecording) (s : State) : State :=
  Build_State (isVideoOn s) (isAudioOn s) (isScreenSharing s) (hasStream s)
    (chatMessages s) (isConnected s) (cameraError s) (remoteHasStream s)
    (systemStatus s) (isRecording s) (recordingDuration s) (recordings s)
    (localStreamRef s) (remoteStreamRef s) (screenTrackRef s) (peerRef s)
    (remoteSocketIdRef s) (mediaRecorderRef s) (recordingChunksRef s)
    (recordingTimerRef s) (recordingDurationRef s) (tracks s)
    (screenOnended s) (connected s) (sent s) v (endedCalls s).

Definition set_endedCalls (v : nat) (s : State) : State :=
  Build_State (isVideoOn s) (isAudioOn s) (isScreenSharing s) (hasStream s)
    (chatMessages s) (isConnected s) (cameraError s) (remoteHasStream s)
    (systemStatus s) (isRecording s) (recordingDuration s) (recordings s)
    (localStreamRef s) (remoteStreamRef s) (screenTrackRef s) (peerRef s)
    (remoteSocketIdRef s) (mediaRecorderRef s) (recordingChunksRef s)
    (recordingTimerRef s) (recordingDurationRef s) (tracks s)
    (screenOnended s) (connected s) (sent s) (exported s) v.

(** The component at its first render, before its effects run. *)
Definition init : State :=
  {| isVideoOn := false; isAudioOn := false; isScreenSharing := false;
     hasStream := false; chatMessages := []; isConnected := false;
     cameraError := None; remoteHasStream := false;
     systemStatus := lit "Waiting for participant...";
     isRecording := false; recordingDuration := 0; recordings := [];
     localStreamRef := None; remoteStreamRef := None; screenTrackRef := None;
     peerRef := None; remoteSocketIdRef := None; mediaRecorderRef := None;
     recordingChunksRef := []; recordingTimerRef := false;
     recordingDurationRef := 0; tracks := []; screenOnended := None;
     connected := false; sent := []; exported := []; endedCalls := 0 |}.

(** [socketRef.current?.emit(...)]. *)
Definition emit (m : ClientMsg) (s : State) : State := set_sent (sent s ++ [m]) s.

Section Handlers.

Variable P : Platform.
Variable props : Props.

(** The first sender whose track has the kind of [track] gets [track]
    if its [replaceTrack] resolves; without such a sender one is added
    ([addTrack]). *)
Fixpoint replace_or_add (h : Heap) (track : nat) (l : list nat) : list nat :=
  match l with
  | t :: l' =>
      if decide (kind <$> h !! t = kind <$> h !! track)
      then (if replaceTrack_ok P then track else t) :: l'
      else t :: replace_or_add h track l'
  | [] => [track]
  end.

Definition syncTracksWithPeer (stream : Stream) (s : State) : State :=
  match peerRef s with
  | None => s
  | Some peer =>
      set_peerRef
        (Some (pc_setSenders
                 (foldl (λ l track, replace_or_add (tracks s) track l)
                    (senders peer) stream)
                 peer)) s
  end.

(** The [catch] of [startMedia]. *)
Definition startMedia_failed (s : State) : State :=
  let s := setCameraError
             (Some (or_default (media_error P)
                      (lit "Failed to access camera/microphone. Please check permissions."))) s in
  let s := setIsVideoOn false s in
  let s := setIsAudioOn false s in
  setHasStream false s.

Definition startMedia (video audio : bool) (s : State) : State :=
  let s := setCameraError None s in
  if getUserMedia_ok P video audio then
    let new_track k := {| kind := k; enabled := true; readyState := Live |} in
    let h := tracks s in
    let '(h, vs) := if video then let '(h, t) := alloc (new_track Video) h in (h, [t])
                    else (h, []) in
    let '(h, as_) := if audio then let '(h, t) := alloc (new_track Audio) h in (h, [t])
                     else (h, []) in
    let stream := vs ++ as_ in
    let h := match localStreamRef s with
             | Some old => stop_tracks old h
             | None => h
             end in
    let s := set_tracks h s in
    let s := set_localStreamRef (Some stream) s in
    let s := setHasStream true s in
    let s := syncTracksWithPeer stream s in
    if play_ok P then s else startMedia_failed s
  else startMedia_failed s.

Definition ensureLocalStream (s : State) : State :=
  match localStreamRef s with
  | None =>
      let s := startMedia true true s in
      let s := setIsVideoOn true s in
      setIsAudioOn true s
  | Some _ => s
  end.

(** The merged stream, or [None] without a remote stream.  Remote tracks
    are added as they are, local audio tracks as clones. *)
Definition buildRecordingStream (s : State) : option Stream * State :=
  match remoteStreamRef s with
  | None => (None, s)
  | Some remoteStream =>
      let merged := foldl (λ m track, addTrack track m) [] remoteStream in
      match localStreamRef s with
      | Some localStream =>
          let '(h, merged) :=
            foldl (λ '(h, m) track,
                     let '(h, c) := track_clone track h in (h, addTrack c m))
                  (tracks s, merged) (getAudioTracks (tracks s) localStream) in
          (Some merged, set_tracks h s)
      | None => (Some merged, s)
      end
  end.

Definition stopRecordingTimer (s : State) : State :=
  if recordingTimerRef s then set_recordingTimerRef false s else s.

Definition recording_mime : jsstring := lit "video/webm;codecs=vp9,opus".

Definition startRecording (s : State) : State :=
  if isRecording s then s
  else
    match buildRecordingStream s with
    | (None, s) =>
        setSystemStatus (lit "Recording unavailable until the session is live.") s
    | (Some stream, s) =>
        let failed s :=
          let s := setSystemStatus (lit "This browser does not support recording.") s in
          set_tracks (stop_tracks stream (tracks s)) s in
        if MediaRecorder_ok P stream recording_mime then
          let s := set_recordingChunksRef [] s in
          if recorder_start_ok P then
            let recorder := {| rec_stream := stream;
                               rec_mimeType := recording_mime |} in
            let s := set_mediaRecorderRef (Some recorder) s in
            let s := setIsRecording true s in
            let s := setRecordingDuration 0 s in
            let s := set_recordingDurationRef 0 s in
            let s := set_recordingTimerRef true s in
            setSystemStatus (lit "Recording in progress...") s
          else failed s
        else failed s
    end.

(** [recorder.ondataavailable]. *)
Definition recorder_ondataavailable (data : option Blob) (s : State) : State :=
  match data with
  | Some (b :: d) => set_recordingChunksRef (recordingChunksRef s ++ [b :: d]) s
  | _ => s
  end.

(** One tick of the recording timer. *)
Definition recording_tick (s : State) : State :=
  if recordingTimerRef s then
    let next := recordingDuration s + 1 in
    set_recordingDurationRef next (setRecordingDuration next s)
  else s.

(** [recorder.onstop] of the recorder [recorder], at the time whose
    [getTime()] is [now] and whose [toISOString()] is [iso]; [url] is the
    object URL of the blob and [encoded] the data URL that
    [blobToDataUrl] resolves with ([None]: it rejects). *)
Definition recorder_onstop (recorder : Recorder) (now : N) (iso url : jsstring)
    (encoded : Blob → option jsstring) (s : State) : State :=
  let blob := concat (recordingChunksRef s) in
  let filename := lit "session-" ++ replace_colon_dot iso ++ lit ".webm" in
  let duration := recordingDurationRef s in
  let s := setRecordings
             (recordings s ++
                [{| entry_id := lit (pretty now); entry_url := url;
                    entry_filename := filename; entry_duration := duration;
                    entry_createdAt := now |}]) s in
  let s := set_recordingChunksRef [] s in
  let s := setRecordingDuration 0 s in
  let s := set_recordingDurationRef 0 s in
  if onRecordingReady props then
    match encoded blob with
    | Some dataUrl =>
        set_exported
          (exported s ++
             [{| id := lit (pretty now); filename := filename;
                 duration := duration; createdAt := iso;
                 mimeType := rec_mimeType recorder; dataUrl := dataUrl |}]) s
    | None => s
    end
  else s.

Definition stopRecording (s : State) : State :=
  match mediaRecorderRef s with
  | None => s
  | Some recorder =>
      let s := set_tracks (stop_tracks (rec_stream recorder) (tracks s)) s in
      let s := set_mediaRecorderRef None s in
      let s := stopRecordingTimer s in
      let s := setIsRecording false s in
      setSystemStatus (lit "Recording saved.") s
  end.

Definition cleanupPeerConnection (s : State) : State :=
  let s := match mediaRecorderRef s with
           | Some _ => stopRecording s
           | None => s
           end in
  let s := set_peerRef None s in
  let s := set_remoteSocketIdRef None s in
  let s := setRemoteHasStream false s in
  let s := setIsConnected false s in
  set_remoteStreamRef None s.

(** [syncTracksWithPeer] runs before [peerRef.current] is assigned. *)
Definition createPeerConnection (s : State) : PeerConn * State :=
  match peerRef s with
  | Some peer => (peer, s)
  | None =>
      let peer := new_pc in
      let s := match localStreamRef s with
               | Some localStream => syncTracksWithPeer localStream s
               | None => s
               end in
      (peer, set_peerRef (Some peer) s)
  end.

(** [peer.ontrack]: a remote track of kind [k] arrives, in a stream or
    in none. *)
Definition peer_ontrack (k : TrackKind) (inStream : bool) (s : State) : State :=
  match peerRef s with
  | None => s
  | Some _ =>
      let '(h, t) := alloc {| kind := k; enabled := true; readyState := Live |}
                       (tracks s) in
      let s := set_tracks h s in
      let s := if inStream
               then set_remoteStreamRef
                      (Some (default [] (remoteStreamRef s) ++ [t])) s
               else s in
      let s := setRemoteHasStream true s in
      setSystemStatus (lit "Participant connected.") s
  end.

(** [peer.onicecandidate]. *)
Definition peer_onicecandidate (candidate : option Candidate) (s : State) : State :=
  match peerRef s, candidate with
  | Some _, Some c =>
      if truthy (remoteSocketIdRef s)
      then emit (SendIce (remoteSocketIdRef s) (Some c)) s else s
  | _, _ => s
  end.

Inductive ConnectionState :=
  CsNew | CsConnecting | CsConnected | CsDisconnected | CsFailed | CsClosed.

(** [peer.onconnectionstatechange]. *)
Definition peer_onconnectionstatechange (state : ConnectionState) (s : State)
    : State :=
  match peerRef s with
  | None => s
  | Some _ =>
      match state with
      | CsConnected => setIsConnected true s
      | CsDisconnected | CsFailed =>
          setSystemStatus (lit "Connection lost. Reconnecting...")
            (setIsConnected false s)
      | _ => s
      end
  end.

Definition initiateOffer (targetId : jsstring) (s : State) : State :=
  let s := ensureLocalStream s in
  let '(peer, s) := createPeerConnection s in
  let s := set_remoteSocketIdRef (Some targetId) s in
  let failed s := setSystemStatus (lit "Unable to start call.") s in
  match createOffer P peer with
  | Some offer =>
      if setLocalDescription_ok P peer offer then
        let s := set_peerRef (Some (pc_setLocal offer peer)) s in
        let s := emit (SendOffer (Some targetId) (Some offer)) s in
        setSystemStatus (lit "Sending call invitation...") s
      else failed s
  | None => failed s
  end.

Definition handleRemoteOffer (sdp : SDP) (fromId : jsstring) (s : State) : State :=
  let s := ensureLocalStream s in
  let '(peer, s) := createPeerConnection s in
  let s := set_remoteSocketIdRef (Some fromId) s in
  if setRemoteDescription_ok P peer sdp then
    let peer := pc_setRemote sdp peer in
    let s := set_peerRef (Some peer) s in
    match createAnswer P peer with
    | Some answer =>
        if setLocalDescription_ok P peer answer then
          let s := set_peerRef (Some (pc_setLocal answer peer)) s in
          let s := emit (SendAnswer (Some fromId) (Some answer)) s in
          setSystemStatus (lit "Connecting to participant...") s
        else s
    | None => s
    end
  else s.

Definition handleRemoteAnswer (sdp : SDP) (s : State) : State :=
  match peerRef s with
  | None => s
  | Some peer =>
      if setRemoteDescription_ok P peer sdp then
        let s := set_peerRef (Some (pc_setRemote sdp peer)) s in
        setSystemStatus (lit "Participant connected.") s
      else s
  end.

Definition handleRemoteCandidate (candidate : Candidate) (s : State) : State :=
  match peerRef s with
  | None => s
  | Some peer =>
      if addIceCandidate_ok P peer candidate
      then set_peerRef (Some (pc_addCandidate candidate peer)) s
      else s
  end.

(** [peerRef.current?.getSenders().find((s) => s.track?.kind === "video")],
    as a position in [senders]. *)
Definition video_sender (s : State) : option nat :=
  peer ← peerRef s;
  fst <$> list_find (λ t, has_kind (tracks s) Video t = true) (senders peer).

(** [sender.replaceTrack(track)] on the sender at position [i]. *)
Definition replaceTrack (i track : nat) (s : State) : State :=
  match peerRef s with
  | Some peer =>
      set_peerRef (Some (pc_setSenders (<[i := track]> (senders peer)) peer)) s
  | None => s
  end.

(** The result tells whether the function returned ([true]) or its
    [replaceTrack] rejected ([false]). *)
Definition stopScreenShare (s : State) : State * bool :=
  let videoTrack :=
    head (getVideoTracks (tracks s) (default [] (localStreamRef s))) in
  let sender := video_sender s in
  let s := match screenTrackRef s with
           | Some t =>
               set_screenTrackRef None
                 (set_tracks (track_stop t (tracks s)) s)
           | None => s
           end in
  match sender, videoTrack with
  | Some i, Some videoTrack =>
      if replaceTrack_ok P
      then (setIsScreenSharing false (replaceTrack i videoTrack s), true)
      else (s, false)
  | _, _ => (setIsScreenSharing false s, true)
  end.

Definition startScreenShare (s : State) : State :=
  match getDisplayMedia P with
  | Some true =>
      let '(h, screenTrack) :=
        alloc {| kind := Video; enabled := true; readyState := Live |}
          (tracks s) in
      let s := set_tracks h s in
      let s := set_screenTrackRef (Some screenTrack) s in
      let shared s :=
        setIsScreenSharing true (set_screenOnended (Some screenTrack) s) in
      match video_sender s with
      | Some i =>
          if replaceTrack_ok P then shared (replaceTrack i screenTrack s)
          else s
      | None => shared s
      end
  | _ => s
  end.

Definition toggleScreenShare (s : State) : State :=
  if isScreenSharing s then (stopScreenShare s).1
  else startScreenShare (ensureLocalStream s).

(** [screenTrack.onended]: the user stops sharing from the browser,
    which ends the track and fires the listener. *)
Definition screenTrack_onended (s : State) : State :=
  match screenOnended s with
  | Some t =>
      if is_live (tracks s) t
      then (stopScreenShare (set_tracks (track_stop t (tracks s)) s)).1
      else s
  | None => s
  end.

Definition set_all_enabled (b : bool) (l : list nat) (s : State) : State :=
  set_tracks (foldl (λ h t, set_enabled b t h) (tracks s) l) s.

Definition toggleVideo (s : State) : State :=
  if isVideoOn s then
    let '(s, returned) :=
      if isScreenSharing s then stopScreenShare s else (s, true) in
    if returned then
      let s := match localStreamRef s with
               | Some localStream =>
                   set_all_enabled false (getVideoTracks (tracks s) localStream) s
               | None => s
               end in
      setIsVideoOn false s
    else s
  else
    let s := match localStreamRef s with
             | None => startMedia true (isAudioOn s) s
             | Some localStream =>
                 set_all_enabled true (getVideoTracks (tracks s) localStream) s
             end in
    setIsVideoOn true s.

Definition toggleAudio (s : State) : State :=
  if isAudioOn s then
    let s := match localStreamRef s with
             | Some localStream =>
                 set_all_enabled false (getAudioTracks (tracks s) localStream) s
             | None => s
             end in
    setIsAudioOn false s
  else
    let s := match localStreamRef s with
             | None => startMedia (isVideoOn s) true s
             | Some localStream =>
                 set_all_enabled true (getAudioTracks (tracks s) localStream) s
             end in
    setIsAudioOn true s.

Definition stopMedia (s : State) : State :=
  let s := match localStreamRef s with
           | Some localStream =>
               set_localStreamRef None
                 (set_tracks (stop_tracks localStream (tracks s)) s)
           | None => s
           end in
  let s := match screenTrackRef s with
           | Some t =>
               setIsScreenSharing false
                 (set_screenTrackRef None
                    (set_tracks (track_stop t (tracks s)) s))
           | None => s
           end in
  let s := setHasStream false s in
  let s := setIsVideoOn false s in
  setIsAudioOn false s.

Definition handleExistingParticipants (participants : list jsstring) (s : State)
    : State :=
  match participants with
  | (c :: p) :: _ =>
      let firstParticipant := c :: p in
      let s := setSystemStatus (lit "Participant found. Starting call...") s in
      initiateOffer firstParticipant s
  | _ => setSystemStatus (lit "Waiting for another participant...") s
  end.

Definition handleUserJoined (socketId : jsstring) (userName : option jsstring)
    (s : State) : State :=
  if truthy (remoteSocketIdRef s)
     && bool_decide (remoteSocketIdRef s ≠ Some socketId)
  then s
  else
    let s := setSystemStatus
               (or_default userName (lit "Participant")
                  ++ lit " joined. Establishing call...") s in
    initiateOffer socketId s.

Definition handleUserLeft (s : State) : State :=
  let s := match mediaRecorderRef s with
           | Some _ => stopRecording s
           | None => s
           end in
  let s := setSystemStatus (lit "Participant left. Waiting for reconnection...") s in
  cleanupPeerConnection s.

(** [rnd] is the text of [Math.random()]. *)
Definition handleChatMessage (rnd : jsstring) (sender message : jsstring)
    (timestamp : N) (s : State) : State :=
  if decide (sender = activeUserName props) then s
  else
    setChatMessages
      (chatMessages s ++
         [{| chat_id := lit (pretty timestamp) ++ lit "-" ++ rnd;
             chat_sender := sender; chat_message := message;
             chat_timestamp := timestamp |}]) s.

(** [sendMessage], with [newMessage] the text of the input box. *)
Definition sendMessage (now : N) (newMessage : jsstring) (s : State) : State :=
  match trim newMessage with
  | [] => s
  | trimmed =>
      let s := setChatMessages
                 (chatMessages s ++
                    [{| chat_id := lit (pretty now); chat_sender := lit "You";
                        chat_message := trimmed; chat_timestamp := now |}]) s in
      emit (SendChat (Some (derivedRoomId props)) (Some (activeUserName props))
              (Some trimmed)) s
  end.

(** The listeners of the socket's [connect] and [disconnect] events. *)
Definition socket_onconnect (s : State) : State :=
  let s := emit (JoinRoom (Some (derivedRoomId props)) (Some (activeUserName props))) s in
  setSystemStatus (lit "Joining room...") s.

Definition socket_ondisconnect (s : State) : State :=
  cleanupPeerConnection (setSystemStatus (lit "Disconnected. Retrying...") s).

(** [socket.disconnect()]: a connected socket closes and fires its
    [disconnect] event. *)
Definition socket_disconnect (s : State) : State :=
  if connected s then socket_ondisconnect (set_connected false s) else s.

Definition handleEndCall (s : State) : State :=
  let '(s, returned) :=
    if isScreenSharing s then stopScreenShare s else (s, true) in
  if returned then
    let s := socket_disconnect s in
    let s := cleanupPeerConnection s in
    let s := stopMedia s in
    set_endedCalls (endedCalls s + 1) s
  else s.

(** The effects of the component, run at time [now]: the welcome
    messages, then the socket is created and the devices are prepared. *)
Definition mount (now : N) (s : State) : State :=
  let welcome id message :=
    {| chat_id := id; chat_sender := lit "System"; chat_message := message;
       chat_timestamp := now |} in
  let s := setChatMessages
             [welcome (lit "1")
                (lit "Welcome to the live session with "
                   ++ or_default (teacherName props) (lit "Teacher") ++ lit "!");
              welcome (lit "2")
                (lit "You can use the chat to ask questions during the session.")]
             s in
  let s := setSystemStatus (lit "Preparing devices...") s in
  ensureLocalStream s.

(** The cleanups of the effects. *)
Definition unmount (s : State) : State :=
  let s := match localStreamRef s with
           | Some localStream =>
               set_localStreamRef None
                 (set_tracks (stop_tracks localStream (tracks s)) s)
           | None => s
           end in
  let s := socket_disconnect s in
  cleanupPeerConnection s.

(** The listeners registered on the socket. *)
Definition socket_on (rnd : jsstring) (m : ServerMsg) (s : State) : State :=
  match m with
  | ExistingParticipants participants => handleExistingParticipants participants s
  | UserJoined socketId userName => handleUserJoined socketId userName s
  | UserLeft _ => handleUserLeft s
  | Offer from sdp => handleRemoteOffer sdp from s
  | Answer from sdp => handleRemoteAnswer sdp (set_remoteSocketIdRef (Some from) s)
  | IceCandidate from candidate =>
      let s := match from with
               | _ :: _ => set_remoteSocketIdRef (Some from) s
               | [] => s
               end in
      handleRemoteCandidate candidate s
  | ChatMessage sender message timestamp =>
      handleChatMessage rnd sender message timestamp s
  end.

(** Everything that happens to the component: its effects, the socket,
    the peer connection, the recorder and the controls. *)
Inductive Event :=
| Mount (now : N)
| Unmount
| SocketConnect
| SocketDisconnect
| Receive (rnd : jsstring) (m : ServerMsg)
| PeerTrack (k : TrackKind) (inStream : bool)
| PeerIceCandidate (candidate : option Candidate)
| PeerConnectionState (state : ConnectionState)
| ClickRecord
| RecorderData (data : option Blob)
| RecorderStop (recorder : Recorder) (now : N) (iso url : jsstring)
    (encoded : Blob → option jsstring)
| RecordingTick
| SendMessage (now : N) (newMessage : jsstring)
| ToggleAudio
| ToggleVideo
| ToggleScreenShare
| ScreenTrackEnded
| EndCall.

Definition step (e : Event) (s : State) : State :=
  match e with
  | Mount now => mount now s
  | Unmount => unmount s
  | SocketConnect => socket_onconnect (set_connected true s)
  | SocketDisconnect => socket_ondisconnect (set_connected false s)
  | Receive rnd m => socket_on rnd m s
  | PeerTrack k inStream => peer_ontrack k inStream s
  | PeerIceCandidate candidate => peer_onicecandidate candidate s
  | PeerConnectionState state => peer_onconnectionstatechange state s
  | ClickRecord => if isRecording s then stopRecording s else startRecording s
  | RecorderData data => recorder_ondataavailable data s
  | RecorderStop recorder now iso url encoded =>
      recorder_onstop recorder now iso url encoded s
  | RecordingTick => recording_tick s
  | SendMessage now newMessage => sendMessage now newMessage s
  | ToggleAudio => toggleAudio s
  | ToggleVideo => toggleVideo s
  | ToggleScreenShare => toggleScreenShare s
  | ScreenTrackEnded => screenTrack_onended s
  | EndCall => handleEndCall s
  end.

End Handlers.

(** A run of the component: the platform may behave differently from
    one event to the next. *)
Definition steps (props : Props) (es : list (Platform * Event)) (s : State)
    : State :=
  foldl (λ s '(P, e), step P props e s) s es.

(** A client that handles, in order, the packets [msgs] of the server. *)
Definition receive_all (P : Platform) (props : Props) (msgs : list ServerMsg)
    (s : State) : State :=
  steps props ((λ m, (P, Receive [] m)) <$> msgs) s.

(** The candidates the current peer connection has accepted. *)
Definition applied (s : State) : list Candidate :=
  default [] (candidates <$> peerRef s).

(** The recording flags, the remote stream and the accepted candidates. *)
Definition frame (s : State)
    : bool * option Recorder * option Stream * list Candidate :=
  (isRecording s, mediaRecorderRef s, remoteStreamRef s, applied s).

(** While a recorder exists there is a remote stream, and [isRecording]
    is set only while a recorder exists. *)
Definition recording_inv (s : State) : Prop :=
  (isRecording s = true → is_Some (mediaRecorderRef s))
  ∧ (is_Some (mediaRecorderRef s) → is_Some (remoteStreamRef s)).

End Client.

(** ** A concrete session

    Two browsers [A] and [B] that connect and join room ["r1"], first [A]
    as Alice, then [B] as Bob. *)

Module Session.

Import SocketIO Server Browser.

Definition A : jsstring := lit "A".
Definition B : jsstring := lit "B".
Definition r1 : jsstring := lit "r1".
Definition r2 : jsstring := lit "r2".

Definition joins : list (N * jsstring * Input) :=
  [(0%N, A, Connect);
   (0%N, B, Connect);
   (1%N, A, Emit (JoinRoom (Some r1) (Some (lit "Alice"))));
   (2%N, B, Emit (JoinRoom (Some r1) (Some (lit "Bob"))))].

(** The server once both have joined, and what it sent meanwhile. *)
Definition joined : Server.State := (run joins init).1.
Definition join_out : Out := (run joins init).2.

(** Both sockets go on to join a second room. *)
Definition joined_twice : Server.State :=
  (run [(3%N, A, Emit (JoinRoom (Some r2) (Some (lit "Alice"))));
        (4%N, B, Emit (JoinRoom (Some r2) (Some (lit "Bob"))))] joined).1.

Definition PA : Platform := webrtc (lit "offer-of-A") (lit "answer-of-A").
Definition PB : Platform := webrtc (lit "offer-of-B") (lit "answer-of-B").

Definition props_of (name : string) : Client.Props :=
  {| Client.teacherName := None; Client.studentName := None;
     Client.meetingLink := None;
     Client.roomId := Some r1; Client.currentUserName := Some (lit name);
     Client.onRecordingReady := true |}.

(** A candidate and an answer that [B] sends to [A]. *)
Definition cand : Candidate :=
  {| cand_text := lit "candidate:1 1 udp 2122260223 192.0.2.7 54321 typ host" |}.

Definition answer_B : SDP :=
  {| sdp_type := SdpAnswer; sdp_text := lit "answer-of-B" |}.

(** A client whose effects have run and whose socket has connected. *)
Definition started (P : Platform) (props : Client.Props) : Client.State :=
  Client.steps props [(P, Client.Mount 0); (P, Client.SocketConnect)] Client.init.

(** Each client has handled everything the server sent it. *)
Definition client_A : Client.State :=
  Client.receive_all PA (props_of "Alice") (inbox A join_out)
    (started PA (props_of "Alice")).

Definition client_B : Client.State :=
  Client.receive_all PB (props_of "Bob") (inbox B join_out)
    (started PB (props_of "Bob")).

(** [A] once the video and audio tracks of [B] have arrived. *)
Definition in_call : Client.State :=
  Client.steps (props_of "Alice")
    [(PA, Client.PeerTrack Video true); (PA, Client.PeerTrack Audio true)]
    client_A.

End Session.

(** * Properties *)

(** ** Trimming *)

Module JSFacts.

Import JS.

Lemma forallb_reverse {A} (f : A → bool) (l : list A) :
  forallb f (reverse l) = forallb f l.
Proof.
  induction l as [|x l IH]; [done|].
  rewrite reverse_cons, forallb_app, IH. simpl.
  destruct (f x), (forallb f l); done.
Qed.

Lemma trimStart_nil_iff s : trimStart s = [] ↔ forallb is_ws s = true.
Proof.
  induction s as [|c s IH]; simpl; [done|].
  destruct (is_ws c); simpl; [done|]. split; discriminate.
Qed.

Lemma trimStart_forallb s : forallb is_ws (trimStart s) = forallb is_ws s.
Proof.
  induction s as [|c s IH]; simpl; [done|].
  destruct (is_ws c) eqn:E; simpl; [done|]. by rewrite E.
Qed.

(** [trim] leaves nothing exactly when every code unit is white space. *)
Lemma trim_nil_iff s : trim s = [] ↔ forallb is_ws s = true.
Proof.
  unfold trim, trimEnd.
  rewrite <- trimStart_forallb, <- (forallb_reverse _ (trimStart s)).
  rewrite <- trimStart_nil_iff. split.
  - intros H. apply (f_equal reverse) in H. by rewrite reverse_involutive in H.
  - by intros ->.
Qed.

Lemma truthy_trim m :
  truthy (trim <$> Some m) = negb (forallb is_ws m).
Proof.
  simpl. destruct (forallb is_ws m) eqn:E.
  - apply trim_nil_iff in E. by rewrite E.
  - destruct (trim m) eqn:T; [|done].
    apply trim_nil_iff in T. congruence.
Qed.

End JSFacts.

(** ** The adapter keeps its invariant *)

Module AdapterFacts.

Import JS SocketIO.

Lemma NoDup_members a r : wf a → NoDup (members a r).
Proof.
  intros H. unfold members. destruct (rooms a !! r) eqn:E; simpl.
  - eapply wf_rooms; eauto.
  - constructor.
Qed.

Lemma NoDup_socketRooms a s : wf a → NoDup (socketRooms a s).
Proof.
  intros H. unfold socketRooms. destruct (sids a !! s) eqn:E; simpl.
  - eapply wf_sids; eauto.
  - constructor.
Qed.

Lemma elem_of_set_add x y l : x ∈ set_add y l ↔ x = y ∨ x ∈ l.
Proof.
  unfold set_add. destruct (decide (y ∈ l)).
  - split; [auto|]. by intros [->|?].
  - rewrite elem_of_app, list_elem_of_singleton. tauto.
Qed.

Lemma NoDup_set_add y l : NoDup l → NoDup (set_add y l).
Proof.
  intros H. unfold set_add. destruct (decide (y ∈ l)); [done|].
  apply NoDup_app. split_and!; [done| |apply NoDup_singleton].
  by intros x Hx ->%list_elem_of_singleton.
Qed.

Lemma members_join id room a r :
  members (join id room a) r =
  if decide (r = room) then set_add id (members a room) else members a r.
Proof.
  unfold members at 1. simpl. destruct (decide (r = room)) as [->|Hne].
  - by rewrite lookup_insert_eq.
  - by rewrite lookup_insert_ne.
Qed.

Lemma socketRooms_join id room a s :
  socketRooms (join id room a) s =
  if decide (s = id) then set_add room (socketRooms a id) else socketRooms a s.
Proof.
  unfold socketRooms at 1. simpl. destruct (decide (s = id)) as [->|Hne].
  - by rewrite lookup_insert_eq.
  - by rewrite lookup_insert_ne.
Qed.

Lemma wf_empty : wf SocketIO.empty.
Proof.
  split; simpl.
  - intros r l. by rewrite lookup_empty.
  - intros r l. by rewrite lookup_empty.
  - intros id r. unfold members, socketRooms. simpl. rewrite !lookup_empty.
    simpl. split; intros H; inversion H.
Qed.

Lemma wf_join id room a : wf a → wf (join id room a).
Proof.
  intros H. split.
  - intros r l. simpl. destruct (decide (r = room)) as [->|Hne].
    + rewrite lookup_insert_eq. intros [= <-].
      by apply NoDup_set_add, NoDup_members.
    + rewrite lookup_insert_ne by done. apply H.
  - intros s l. simpl. destruct (decide (s = id)) as [->|Hne].
    + rewrite lookup_insert_eq. intros [= <-].
      by apply NoDup_set_add, NoDup_socketRooms.
    + rewrite lookup_insert_ne by done. apply H.
  - intros i r. rewrite members_join, socketRooms_join.
    pose proof (wf_link a H i r) as L.
    destruct (decide (r = room)) as [->|Hr], (decide (i = id)) as [->|Hi];
      rewrite ?elem_of_set_add; tauto.
Qed.

Lemma leave_room_lookup id rs x r :
  leave_room id rs x !! r =
  if decide (r = x) then leave_opt id (rs !! x) else rs !! r.
Proof.
  unfold leave_room, leave_opt. destruct (rs !! x) as [l|] eqn:E.
  - destruct (set_delete id l) eqn:D; destruct (decide (r = x)) as [->|Hne];
      rewrite ?lookup_delete_eq, ?lookup_insert_eq, ?lookup_delete_ne,
        ?lookup_insert_ne by done; done.
  - destruct (decide (r = x)) as [->|Hne]; done.
Qed.

Lemma foldl_leave_room_lookup id L rs r :
  NoDup L →
  foldl (leave_room id) rs L !! r =
  if decide (r ∈ L) then leave_opt id (rs !! r) else rs !! r.
Proof.
  intros HL. revert rs.
  induction HL as [|x L Hx HL IH]; intros rs; cbn [foldl].
  - case_decide as Hin; [by apply elem_of_nil in Hin|done].
  - rewrite IH, !leave_room_lookup.
    destruct (decide (r = x)) as [->|Hne].
    + rewrite (decide_False (P := x ∈ L)) by done.
      rewrite decide_True; [done|]. by left.
    + destruct (decide (r ∈ L)).
      * rewrite decide_True; [done|]. by right.
      * rewrite decide_False; [done|]. by intros [?|?]%elem_of_cons.
Qed.

Lemma default_leave_opt id o :
  default [] (leave_opt id o) = set_delete id (default [] o).
Proof.
  destruct o as [l|]; simpl; [|done]. by destruct (set_delete id l).
Qed.

Lemma set_delete_notin id (l : list jsstring) : id ∉ l → set_delete id l = l.
Proof.
  intros H. unfold set_delete. induction l as [|x l IH]; [done|].
  rewrite filter_cons. rewrite decide_True.
  - f_equal. apply IH. intros ?. apply H. by right.
  - intros ->. apply H. by left.
Qed.

Lemma elem_of_set_delete x id (l : list jsstring) :
  x ∈ set_delete id l ↔ x ≠ id ∧ x ∈ l.
Proof. unfold set_delete. by rewrite list_elem_of_filter. Qed.

(** Disconnecting removes the socket from every room, and only it. *)
Lemma members_disconnect id a r :
  wf a → members (disconnect id a) r = set_delete id (members a r).
Proof.
  intros H. unfold members at 1. simpl.
  rewrite foldl_leave_room_lookup by by apply NoDup_socketRooms.
  destruct (decide (r ∈ socketRooms a id)) as [Hin|Hout].
  - apply default_leave_opt.
  - fold (members a r). symmetry. apply set_delete_notin.
    by rewrite (wf_link a H).
Qed.

Lemma socketRooms_disconnect id a s :
  socketRooms (disconnect id a) s =
  if decide (s = id) then [] else socketRooms a s.
Proof.
  unfold socketRooms at 1. simpl. destruct (decide (s = id)) as [->|Hne].
  - by rewrite lookup_delete_eq.
  - by rewrite lookup_delete_ne.
Qed.

Lemma wf_disconnect id a : wf a → wf (disconnect id a).
Proof.
  intros H. split.
  - intros r l Hl. simpl in Hl.
    rewrite foldl_leave_room_lookup in Hl by by apply NoDup_socketRooms.
    destruct (decide (r ∈ socketRooms a id)); [|by eapply wf_rooms].
    unfold leave_opt in Hl. destruct (rooms a !! r) as [l0|] eqn:E; [|done].
    assert (l = set_delete id l0) as ->.
    { destruct (set_delete id l0); congruence. }
    apply NoDup_filter. by eapply wf_rooms.
  - intros s l. simpl. destruct (decide (s = id)) as [->|Hne].
    + by rewrite lookup_delete_eq.
    + rewrite lookup_delete_ne by done. apply H.
  - intros i r. rewrite members_disconnect, socketRooms_disconnect by done.
    rewrite elem_of_set_delete, (wf_link a H).
    destruct (decide (i = id)) as [->|Hne].
    + split; [tauto|]. by intros ?%elem_of_nil.
    + tauto.
Qed.

End AdapterFacts.

(** ** The relay *)

Module Relay.

Import JS SocketIO Server JSFacts AdapterFacts Session.

(** Every handler, and so every run, keeps the adapter well formed. *)
Lemma handle_wf now sock i st :
  wf (adapter st) → wf (adapter (handle now sock i st).1).
Proof.
  intros H. destruct i as [|m|]; simpl.
  - by apply wf_join.
  - destruct m as [roomId userName|targetId sdp|targetId sdp|targetId c|roomId sender message]; simpl.
    + destruct roomId as [[|c r]|]; simpl; [done| |done]. by apply wf_join.
    + unfold on_offer. by repeat case_match.
    + unfold on_answer. by repeat case_match.
    + unfold on_ice_candidate. by repeat case_match.
    + unfold on_chat_message. by case_match.
  - by apply wf_disconnect.
Qed.

Lemma run_wf evs st : wf (adapter st) → wf (adapter (run evs st).1).
Proof.
  revert st. induction evs as [|[[now sock] i] evs IH]; intros st H; [done|].
  simpl. pose proof (handle_wf now sock i st H) as H1.
  destruct (handle now sock i st) as [st1 out1]. simpl in H1.
  specialize (IH st1 H1). by destruct (run evs st1).
Qed.

Lemma joined_wf : wf (adapter joined).
Proof. apply run_wf, wf_empty. Qed.

Lemma joined_twice_wf : wf (adapter joined_twice).
Proof. apply run_wf, joined_wf. Qed.

(** *** What reaches one socket *)

Lemma inbox_app h (o1 o2 : Out) : inbox h (o1 ++ o2) = inbox h o1 ++ inbox h o2.
Proof. unfold inbox. by rewrite filter_app, fmap_app. Qed.

Lemma inbox_to_all h ev (M : list jsstring) :
  NoDup M →
  inbox h ((λ x, (x, ev)) <$> M) = if decide (h ∈ M) then [ev] else [].
Proof.
  unfold inbox. induction 1 as [|x M Hx HM IH]; [done|].
  rewrite fmap_cons, filter_cons. simpl. destruct (decide (x = h)) as [->|Hne].
  - rewrite fmap_cons, IH. simpl.
    rewrite (decide_False (P := h ∈ M)) by done.
    rewrite decide_True; [done|]. by left.
  - rewrite IH. destruct (decide (h ∈ M)).
    + rewrite decide_True; [done|]. by right.
    + rewrite decide_False; [done|]. intros [?|?]%elem_of_cons; congruence.
Qed.

Lemma inbox_io_to a room ev h :
  wf a →
  inbox h (io_to a room ev) = if decide (h ∈ members a room) then [ev] else [].
Proof. intros H. apply inbox_to_all. by apply NoDup_members. Qed.

Lemma inbox_socket_to a sock room ev h :
  wf a →
  inbox h (socket_to a sock room ev) =
  if decide (h ∈ members a room ∧ h ≠ sock) then [ev] else [].
Proof.
  intros H. unfold socket_to. rewrite inbox_to_all.
  - destruct (decide (h ∈ filter (λ x, x ≠ sock) (members a room))) as [Hin|Hout].
    + apply list_elem_of_filter in Hin. rewrite decide_True; [done|tauto].
    + rewrite decide_False; [done|]. rewrite list_elem_of_filter in Hout. tauto.
  - by apply NoDup_filter, NoDup_members.
Qed.

(** The packets of a disconnect, for any list of rooms to go through. *)
Lemma inbox_user_left a sock h (L : list jsstring) :
  wf a →
  inbox h (concat ((λ roomId,
                      if decide (roomId ≠ sock)
                      then socket_to a sock roomId (UserLeft sock) else [])
                   <$> L)) =
  replicate
    (length (filter (λ r, r ≠ sock ∧ h ∈ members a r ∧ h ≠ sock) L))
    (UserLeft sock).
Proof.
  intros H. induction L as [|r L IH]; [done|].
  rewrite fmap_cons, concat_cons, inbox_app, IH, filter_cons.
  destruct (decide (r ≠ sock)) as [Hr|Hr].
  - rewrite inbox_socket_to by done.
    destruct (decide (h ∈ members a r ∧ h ≠ sock)) as [Hh|Hh].
    + rewrite decide_True by tauto. done.
    + rewrite decide_False by tauto. done.
  - rewrite decide_False by tauto. done.
Qed.

Lemma filter_unique {T} `{EqDecision T} (Q : T → Prop) `{∀ x, Decision (Q x)}
    (L : list T) R :
  NoDup L → R ∈ L → (∀ r, r ∈ L → Q r → r = R) →
  filter Q L = if decide (Q R) then [R] else [].
Proof.
  intros HL HR HQ.
  assert (∀ L', (∀ r, r ∈ L' → ¬ Q r) → filter Q L' = []) as Hnone.
  { induction L' as [|x L' IH]; [done|]. intros Hx.
    rewrite filter_cons, decide_False by (apply Hx; by left).
    apply IH. intros r ?. apply Hx. by right. }
  induction HL as [|x L Hx HL IH]; [by apply elem_of_nil in HR|].
  rewrite filter_cons. destruct (decide (x = R)) as [->|Hne].
  - rewrite (Hnone L); [done|].
    intros r Hr Qr. assert (r = R) as -> by (apply HQ; [by right|done]). done.
  - apply elem_of_cons in HR as [?|HR]; [congruence|].
    rewrite decide_False.
    + apply IH; [done|]. intros r ??. apply HQ; [by right|done].
    + intros Qx. apply Hne, HQ; [by left|done].
Qed.

(** C7: a chat message whose text is missing, empty or only white space
    makes the server emit nothing, to anyone, and changes no state. *)
Theorem whitespace_chat_message_dropped now sock st roomId sender message :
  (∀ m, message = Some m → forallb is_ws m = true) →
  handle now sock (Emit (SendChat roomId sender message)) st = (st, []).
Proof.
  intros Hws. simpl. unfold on_chat_message.
  destruct message as [m|].
  - rewrite truthy_trim, (Hws m eq_refl). simpl. by rewrite andb_false_r.
  - simpl. by rewrite andb_false_r.
Qed.

Lemma whitespace_chat_message_dropped_witness :
  handle 7 A (Emit (SendChat (Some r1) (Some (lit "Alice"))
                      (Some (lit "   "))))
    joined = (joined, []).
Proof.
  apply whitespace_chat_message_dropped.
  intros m [= <-]. vm_compute. reflexivity.
Defined.

(** C10: a chat message whose text is not only white space and whose
    sender is missing or empty is broadcast with the sender
    ["Participant"]: to every member of the room when the event names
    one, and, like any chat message, to nobody when it names none. *)
Theorem chat_message_default_sender now sock st roomId sender m :
  forallb is_ws m = false → sender = None ∨ sender = Some [] →
  handle now sock (Emit (SendChat roomId sender (Some m))) st =
  (st, (λ h, (h, ChatMessage (lit "Participant") (trim m) now))
         <$> (if truthy roomId then members (adapter st) (default [] roomId)
              else [])).
Proof.
  intros Hm Hs. simpl. unfold on_chat_message.
  rewrite truthy_trim, Hm.
  destruct (truthy roomId); simpl; [|done].
  by destruct Hs as [-> | ->].
Qed.

Lemma chat_message_default_sender_witness :
  handle 7 A (Emit (SendChat (Some r1) (Some []) (Some (lit " hi ")))) joined =
  (joined, [(A, ChatMessage (lit "Participant") (lit "hi") 7);
            (B, ChatMessage (lit "Participant") (lit "hi") 7)]).
Proof.
  rewrite (chat_message_default_sender 7 A joined (Some r1) (Some []) (lit " hi "));
    [by vm_compute|by vm_compute|by right].
Defined.

(** C2, as the code has it: with a room identifier and text that is not
    only white space, the chat message (trimmed, stamped with the
    server's clock) reaches every member of the room exactly once, the
    sending socket included when it is a member, and no one else. *)
Theorem chat_message_reaches_whole_room now sock st r sender m :
  wf (adapter st) → r ≠ [] → forallb is_ws m = false →
  let ev := ChatMessage (or_default sender (lit "Participant")) (trim m) now in
  let res := handle now sock (Emit (SendChat (Some r) sender (Some m))) st in
  res.1 = st
  ∧ (∀ h, inbox h res.2 = if decide (h ∈ members (adapter st) r) then [ev] else [])
  ∧ (sock ∈ members (adapter st) r → inbox sock res.2 = [ev]).
Proof.
  intros Hwf Hr Hm. simpl. unfold on_chat_message.
  rewrite truthy_trim, Hm. destruct r as [|c r]; [done|]. simpl.
  split_and!; [done| |].
  - intros h. by apply inbox_io_to.
  - intros Hin. rewrite inbox_io_to by done. by rewrite decide_True.
Qed.

Lemma chat_message_reaches_whole_room_witness :
  inbox A (handle 9 A (Emit (SendChat (Some r1) (Some (lit "Alice"))
                               (Some (lit "hi")))) joined).2
  = [ChatMessage (lit "Alice") (lit "hi") 9].
Proof.
  apply (chat_message_reaches_whole_room 9 A joined r1 (Some (lit "Alice")) (lit "hi"));
    [apply joined_wf|done|by vm_compute|].
  apply (bool_decide_unpack _). by vm_compute.
Defined.

(** C2 fails as stated: [A], a member of ["r1"], sends "hi" to it and
    the broadcast comes back to [A] itself. *)
Lemma chat_message_echoed_to_sender :
  A ∈ members (adapter joined) r1
  ∧ (A, ChatMessage (lit "Alice") (lit "hi") 9)
      ∈ (handle 9 A (Emit (SendChat (Some r1) (Some (lit "Alice"))
                             (Some (lit "hi")))) joined).2.
Proof. split; apply (bool_decide_unpack _); by vm_compute. Qed.

(** C5, as the code has it: when a socket disconnects, every other socket
    receives one [user-left] carrying its identifier for each room, other
    than the socket's own, that the two share, and nothing else; so a
    socket sharing exactly one room with it receives exactly one, and a
    socket sharing none receives none. *)
Theorem user_left_once_per_shared_room now sock st :
  wf (adapter st) →
  let out := (handle now sock Disconnect st).2 in
  (∀ h, inbox h out =
        replicate
          (length (filter (λ r, r ≠ sock ∧ h ∈ members (adapter st) r ∧ h ≠ sock)
                     (socketRooms (adapter st) sock)))
          (UserLeft sock))
  ∧ (∀ R, R ≠ sock → sock ∈ members (adapter st) R →
          (∀ r, r ∈ socketRooms (adapter st) sock → r = sock ∨ r = R) →
          ∀ h, inbox h out =
               if decide (h ∈ members (adapter st) R ∧ h ≠ sock)
               then [UserLeft sock] else []).
Proof.
  intros Hwf. simpl. unfold on_disconnecting. split.
  - intros h. by apply inbox_user_left.
  - intros R HR Hin Honly h. rewrite inbox_user_left by done.
    rewrite (filter_unique _ _ R).
    + destruct (decide (h ∈ members (adapter st) R ∧ h ≠ sock)).
      * rewrite decide_True by tauto. done.
      * rewrite decide_False by tauto. done.
    + by apply NoDup_socketRooms.
    + by apply (wf_link _ Hwf).
    + intros r Hr [Hne _]. destruct (Honly r Hr); [done|done].
Qed.

Lemma user_left_once_per_shared_room_witness :
  inbox B (handle 9 A Disconnect joined).2 = [UserLeft A]
  ∧ inbox A (handle 9 A Disconnect joined).2 = [].
Proof.
  pose proof (user_left_once_per_shared_room 9 A joined joined_wf) as [_ H].
  assert (∀ h, inbox h (handle 9 A Disconnect joined).2 =
               if decide (h ∈ members (adapter joined) r1 ∧ h ≠ A)
               then [UserLeft A] else []) as H1.
  { apply H.
    - done.
    - apply (bool_decide_unpack _). by vm_compute.
    - intros r Hr. apply (bool_decide_unpack _).
      revert Hr. change (socketRooms (adapter joined) A) with [A; r1].
      intros [->|[->|[]%elem_of_nil]%elem_of_cons]%elem_of_cons; by vm_compute. }
  split; rewrite H1.
  - rewrite decide_True; [done|]. split; [|done].
    apply (bool_decide_unpack _). by vm_compute.
  - rewrite decide_False; [done|]. tauto.
Defined.

(** C5 fails as stated: [A] and [B] share the rooms ["r1"] and ["r2"];
    when [A] disconnects, [B], a remaining member of ["r1"], receives two
    [user-left] packets for it. *)
Lemma user_left_delivered_twice :
  A ∈ members (adapter joined_twice) r1
  ∧ B ∈ members (adapter joined_twice) r1
  ∧ inbox B (handle 9 A Disconnect joined_twice).2 = [UserLeft A; UserLeft A].
Proof.
  split_and!; [apply (bool_decide_unpack _); by vm_compute..|by vm_compute].
Qed.

End Relay.

(** ** The client *)

Module ClientFacts.

Import JS SocketIO Browser Client.

(** *** Events the client ignores *)

(** C8: a client that tracks a remote handle ignores [user-joined] for
    any other socket: the whole state, the peer connection and the
    tracked handle included, stays as it is and nothing is sent. *)
Theorem user_joined_ignored_when_tracking_another
    P props rnd s remote socketId userName :
  remoteSocketIdRef s = Some remote → remote ≠ [] → socketId ≠ remote →
  step P props (Receive rnd (UserJoined socketId userName)) s = s.
Proof.
  intros Href Hremote Hne. simpl. unfold handleUserJoined. rewrite Href.
  destruct remote as [|c remote]; [done|]. simpl.
  rewrite bool_decide_true; [done|]. congruence.
Qed.

Lemma user_joined_ignored_when_tracking_another_witness :
  step Session.PA (Session.props_of "Alice")
    (Receive [] (UserJoined (lit "C") (Some (lit "Carol")))) Session.client_A
  = Session.client_A.
Proof.
  apply (user_joined_ignored_when_tracking_another _ _ _ _ Session.B);
    [by vm_compute|done|done].
Defined.

(** C9: a [chat-message] whose sender equals the client's own display
    name changes nothing, the chat log included; and this holds for every
    broadcast the server derives from a message with that sender name,
    whichever socket sent it. *)
Theorem own_name_chat_message_discarded P props rnd s :
  (∀ message timestamp,
     step P props (Receive rnd (ChatMessage (activeUserName props) message timestamp)) s
     = s)
  ∧ (∀ st now sock roomId sender message h ev,
       or_default sender (lit "Participant") = activeUserName props →
       (h, ev) ∈ (Server.handle now sock (Server.Emit (SendChat roomId sender message)) st).2 →
       step P props (Receive rnd ev) s = s).
Proof.
  assert (∀ message timestamp,
     step P props (Receive rnd (ChatMessage (activeUserName props) message timestamp)) s
     = s) as H1.
  { intros. simpl. unfold handleChatMessage. by rewrite decide_True. }
  split; [done|].
  intros st now sock roomId sender message h ev Hname. simpl.
  unfold Server.on_chat_message. case_match; simpl.
  - unfold io_to. intros (x & [= -> ->] & _)%list_elem_of_fmap.
    rewrite Hname. apply H1.
  - by intros ?%elem_of_nil.
Qed.

(** [B] also calls itself Alice: its message to ["r1"] reaches [A], and
    [A] drops it. *)
Lemma own_name_chat_message_discarded_witness :
  (Session.A, ChatMessage (lit "Alice") (lit "hello") 9)
    ∈ (Server.handle 9 Session.B
         (Server.Emit (SendChat (Some Session.r1) (Some (lit "Alice"))
                         (Some (lit "hello")))) Session.joined).2
  ∧ chatMessages
      (step Session.PA (Session.props_of "Alice")
         (Receive [] (ChatMessage (lit "Alice") (lit "hello") 9))
         Session.client_A)
    = chatMessages Session.client_A.
Proof.
  split.
  - apply (bool_decide_unpack _). by vm_compute.
  - exact (f_equal chatMessages
             (proj1 (own_name_chat_message_discarded Session.PA
                       (Session.props_of "Alice") [] Session.client_A)
                (lit "hello") 9%N)).
Defined.

(** *** Joining and offering *)

Section Negotiation.

Variable P : Platform.

Ltac startMedia_cases video audio s :=
  unfold startMedia, startMedia_failed, syncTracksWithPeer;
  destruct (getUserMedia_ok P video audio), (play_ok P), video, audio,
    (localStreamRef s); cbn -[stop_tracks replace_or_add];
  destruct (peerRef s) eqn:?.

Lemma startMedia_sent video audio s : sent (startMedia P video audio s) = sent s.
Proof. startMedia_cases video audio s; reflexivity. Qed.

Lemma startMedia_no_peer video audio s :
  peerRef s = None → peerRef (startMedia P video audio s) = None.
Proof. intros H. startMedia_cases video audio s; done. Qed.

Lemma ensureLocalStream_sent s : sent (ensureLocalStream P s) = sent s.
Proof.
  unfold ensureLocalStream. case_match; [done|]. simpl.
  apply startMedia_sent.
Qed.

Lemma ensureLocalStream_no_peer s :
  peerRef s = None → peerRef (ensureLocalStream P s) = None.
Proof.
  intros H. unfold ensureLocalStream. case_match; [done|]. simpl.
  by apply startMedia_no_peer.
Qed.

Lemma createPeerConnection_fresh s :
  peerRef s = None →
  createPeerConnection P s = (new_pc, set_peerRef (Some new_pc) s).
Proof.
  intros H. unfold createPeerConnection, syncTracksWithPeer. rewrite H.
  by case_match.
Qed.

(** A client without a peer connection that starts an offer sends it,
    provided the platform produces the offer and accepts it as the local
    description of a new connection. *)
Lemma initiateOffer_fresh targetId offer s :
  peerRef s = None →
  createOffer P new_pc = Some offer →
  setLocalDescription_ok P new_pc offer = true →
  sent (initiateOffer P targetId s) =
  sent s ++ [SendOffer (Some targetId) (Some offer)].
Proof.
  intros Hpeer Hoffer Hlocal. unfold initiateOffer.
  rewrite createPeerConnection_fresh by by apply ensureLocalStream_no_peer.
  rewrite Hoffer, Hlocal. simpl.
  by rewrite ensureLocalStream_sent.
Qed.

End Negotiation.

(** C1, as the code has it: when [b] joins a room that holds only [a],
    the server tells [b] about [a] and tells [a] that [b] joined, and
    both clients start an offer: [b] towards [a] on
    [existing-participants], and [a], tracking no one, towards [b] on
    [user-joined].  Each sends its offer as soon as its platform has
    produced it. *)
Theorem two_party_join_both_offer
    PA PB propsA propsB now st a b r name sA sB offerA offerB :
  a ≠ [] → b ≠ a → r ≠ [] →
  members (Server.adapter st) r = [a] →
  peerRef sA = None → remoteSocketIdRef sA = None → peerRef sB = None →
  createOffer PA new_pc = Some offerA →
  setLocalDescription_ok PA new_pc offerA = true →
  createOffer PB new_pc = Some offerB →
  setLocalDescription_ok PB new_pc offerB = true →
  let out := (Server.handle now b (Server.Emit (JoinRoom (Some r) name)) st).2 in
  out = [(b, ExistingParticipants [a]); (a, UserJoined b name)]
  ∧ sent (receive_all PA propsA (Server.inbox a out) sA)
    = sent sA ++ [SendOffer (Some b) (Some offerA)]
  ∧ sent (receive_all PB propsB (Server.inbox b out) sB)
    = sent sB ++ [SendOffer (Some a) (Some offerB)].
Proof.
  intros Ha Hba Hr Hmem HpA HrA HpB HoA HlA HoB HlB out.
  assert (out = [(b, ExistingParticipants [a]); (a, UserJoined b name)]) as ->.
  { subst out. destruct r as [|c r]; [done|]. simpl.
    unfold Server.on_join_room, socket_emit, socket_to. simpl.
    rewrite AdapterFacts.members_join, decide_True by done. rewrite Hmem.
    unfold set_add. rewrite decide_False by (by intros ->%list_elem_of_singleton).
    simpl. rewrite !filter_cons, filter_nil.
    rewrite decide_True by congruence. rewrite decide_False by tauto. done. }
  split; [done|]. unfold receive_all, steps, Server.inbox.
  rewrite !filter_cons, filter_nil. simpl.
  rewrite (decide_False (P := b = a)), (decide_True (P := a = a)) by done.
  rewrite (decide_True (P := b = b)), (decide_False (P := a = b)) by done.
  simpl. split.
  - unfold handleUserJoined. rewrite HrA. simpl.
    rewrite (initiateOffer_fresh PA b offerA) by done. done.
  - unfold handleExistingParticipants. destruct a as [|c a]; [done|].
    rewrite (initiateOffer_fresh PB (c :: a) offerB) by done. done.
Qed.

Lemma two_party_join_both_offer_witness :
  let st := (Server.run (take 3 Session.joins) Server.init).1 in
  let out := (Server.handle 2 Session.B
                (Server.Emit (JoinRoom (Some Session.r1) (Some (lit "Bob")))) st).2 in
  let sA := Session.started Session.PA (Session.props_of "Alice") in
  let sB := Session.started Session.PB (Session.props_of "Bob") in
  sent (receive_all Session.PA (Session.props_of "Alice")
          (Server.inbox Session.A out) sA)
  = sent sA
    ++ [SendOffer (Some Session.B)
          (Some {| sdp_type := SdpOffer; sdp_text := lit "offer-of-A" |})]
  ∧ sent (receive_all Session.PB (Session.props_of "Bob")
            (Server.inbox Session.B out) sB)
    = sent sB
      ++ [SendOffer (Some Session.A)
            (Some {| sdp_type := SdpOffer; sdp_text := lit "offer-of-B" |})].
Proof.
  intros st out sA sB.
  refine (proj2 (two_party_join_both_offer Session.PA Session.PB
                   (Session.props_of "Alice") (Session.props_of "Bob")
                   2 st Session.A Session.B Session.r1 (Some (lit "Bob"))
                   sA sB
                   {| sdp_type := SdpOffer; sdp_text := lit "offer-of-A" |}
                   {| sdp_type := SdpOffer; sdp_text := lit "offer-of-B" |}
                   _ _ _ _ _ _ _ _ _ _ _));
    by vm_compute.
Defined.

(** C1 fails as stated: in the session of [A] and [B], each of the two
    clients, after joining, has sent an offer to the other. *)
Lemma glare_both_clients_offer :
  sent Session.client_A
  = [JoinRoom (Some Session.r1) (Some (lit "Alice"));
     SendOffer (Some Session.B)
       (Some {| sdp_type := SdpOffer; sdp_text := lit "offer-of-A" |})]
  ∧ sent Session.client_B
    = [JoinRoom (Some Session.r1) (Some (lit "Bob"));
       SendOffer (Some Session.A)
         (Some {| sdp_type := SdpOffer; sdp_text := lit "offer-of-B" |})].
Proof. split; by vm_compute. Qed.

(** *** What the handlers leave alone *)

Lemma frame_inv s a b c d :
  frame s = (a, b, c, d) →
  isRecording s = a ∧ mediaRecorderRef s = b ∧ remoteStreamRef s = c
  ∧ applied s = d.
Proof. unfold frame. by intros [= -> -> -> ->]. Qed.

Section Frames.

Variable P : Platform.
Variable props : Props.

Lemma startMedia_frame video audio s : frame (startMedia P video audio s) = frame s.
Proof.
  unfold frame, applied, startMedia, startMedia_failed, syncTracksWithPeer.
  destruct (getUserMedia_ok P video audio), (play_ok P), video, audio,
    (localStreamRef s); cbn -[stop_tracks replace_or_add];
    destruct (peerRef s) eqn:E; cbn -[stop_tracks replace_or_add];
    rewrite ?E; reflexivity.
Qed.

Lemma ensureLocalStream_frame s : frame (ensureLocalStream P s) = frame s.
Proof.
  unfold ensureLocalStream. case_match; [done|].
  rewrite <- (startMedia_frame true true s). reflexivity.
Qed.

Lemma createPeerConnection_spec s :
  ∃ peer s', createPeerConnection P s = (peer, s')
             ∧ peerRef s' = Some peer
             ∧ candidates peer = applied s
             ∧ frame s' = frame s
             ∧ sent s' = sent s.
Proof.
  unfold createPeerConnection, frame, applied.
  destruct (peerRef s) as [peer|] eqn:E.
  - exists peer, s. by rewrite E.
  - exists new_pc. eexists. split; [reflexivity|].
    unfold syncTracksWithPeer. rewrite E. by case_match.
Qed.

Lemma initiateOffer_frame targetId s : frame (initiateOffer P targetId s) = frame s.
Proof.
  unfold initiateOffer.
  destruct (createPeerConnection_spec (ensureLocalStream P s))
    as (peer & s' & -> & Hp & Hc & Hf & _).
  rewrite <- (ensureLocalStream_frame s), <- Hf. unfold frame, applied in *.
  destruct (createOffer P peer) as [offer|]; [|by simpl; rewrite Hp].
  destruct (setLocalDescription_ok P peer offer); simpl; by rewrite Hp.
Qed.

Lemma handleRemoteOffer_frame sdp fromId s :
  frame (handleRemoteOffer P sdp fromId s) = frame s.
Proof.
  unfold handleRemoteOffer.
  destruct (createPeerConnection_spec (ensureLocalStream P s))
    as (peer & s' & -> & Hp & Hc & Hf & _).
  rewrite <- (ensureLocalStream_frame s), <- Hf. unfold frame, applied in *.
  destruct (setRemoteDescription_ok P peer sdp); [|by simpl; rewrite Hp].
  destruct (createAnswer P (pc_setRemote sdp peer)) as [answer|];
    [|by simpl; rewrite Hp].
  destruct (setLocalDescription_ok P (pc_setRemote sdp peer) answer);
    simpl; by rewrite Hp.
Qed.

Lemma handleRemoteAnswer_frame sdp s : frame (handleRemoteAnswer P sdp s) = frame s.
Proof.
  unfold handleRemoteAnswer, frame, applied.
  destruct (peerRef s) as [peer|] eqn:E; [|by rewrite E].
  destruct (setRemoteDescription_ok P peer sdp); simpl; by rewrite ?E.
Qed.

(** [handleRemoteCandidate] hands the candidate to the peer connection
    or leaves the state as it is. *)
Lemma handleRemoteCandidate_cases candidate s :
  (handleRemoteCandidate P candidate s = s
   ∧ (peerRef s = None
      ∨ ∃ peer, peerRef s = Some peer
                ∧ addIceCandidate_ok P peer candidate = false))
  ∨ (∃ peer, peerRef s = Some peer
             ∧ addIceCandidate_ok P peer candidate = true
             ∧ handleRemoteCandidate P candidate s
               = set_peerRef (Some (pc_addCandidate candidate peer)) s).
Proof.
  unfold handleRemoteCandidate. destruct (peerRef s) as [peer|]; [|by left; auto].
  destruct (addIceCandidate_ok P peer candidate) eqn:E.
  - right. by exists peer.
  - left. split; [done|]. right. by exists peer.
Qed.

Lemma stopRecording_frame s :
  frame (stopRecording s) = (false, None, remoteStreamRef s, applied s)
  ∨ (mediaRecorderRef s = None ∧ stopRecording s = s).
Proof.
  unfold stopRecording, stopRecordingTimer.
  destruct (mediaRecorderRef s); [left|by right].
  unfold frame, applied. cbn -[stop_tracks].
  by destruct (recordingTimerRef s).
Qed.

Lemma cleanupPeerConnection_frame s :
  (isRecording s = true → is_Some (mediaRecorderRef s)) →
  frame (cleanupPeerConnection s) = (false, None, None, []).
Proof.
  intros H. unfold cleanupPeerConnection.
  destruct (mediaRecorderRef s) eqn:E.
  - destruct (stopRecording_frame s) as [Hf|[? _]]; [|congruence].
    apply frame_inv in Hf as (H1 & H2 & _).
    unfold frame, applied. simpl. by rewrite H1, H2.
  - unfold frame, applied. simpl. rewrite E.
    destruct (isRecording s); [|done]. by destruct H.
Qed.

Lemma buildRecordingStream_spec s :
  ∃ o s', buildRecordingStream s = (o, s')
          ∧ (is_Some o ↔ is_Some (remoteStreamRef s))
          ∧ (o = None → s' = s)
          ∧ frame s' = frame s.
Proof.
  unfold buildRecordingStream. destruct (remoteStreamRef s) as [remote|] eqn:E.
  - assert (∀ x : Stream, is_Some (Some x) ↔ is_Some (Some remote)) as Hsome.
    { intros x. split; eauto. }
    destruct (localStreamRef s) as [localStream|].
    + destruct (foldl _ _ _) as [h merged]. eexists _, _.
      split; [reflexivity|]. split; [apply Hsome|]. split; [done|].
      unfold frame, applied. simpl. by rewrite E.
    + eexists _, _. split; [reflexivity|]. split; [apply Hsome|]. done.
  - exists None, s. split; [done|]. split; [|done]. split; by intros [].
Qed.

End Frames.

Lemma applied_frame s s' : frame s' = frame s → applied s' = applied s.
Proof. unfold frame. by intros [= _ _ _ ->]. Qed.

Lemma cleanupPeerConnection_applied s : applied (cleanupPeerConnection s) = [].
Proof. reflexivity. Qed.

Section MoreFrames.

Variable P : Platform.
Variable props : Props.

Lemma replaceTrack_frame i track s : frame (replaceTrack i track s) = frame s.
Proof.
  unfold replaceTrack, frame, applied.
  destruct (peerRef s) eqn:E; simpl; by rewrite ?E.
Qed.

Lemma stopScreenShare_frame s : frame (stopScreenShare P s).1 = frame s.
Proof.
  unfold stopScreenShare.
  set (s' := match screenTrackRef s with
             | Some t => set_screenTrackRef None
                           (set_tracks (track_stop t (tracks s)) s)
             | None => s
             end).
  assert (frame s' = frame s) as <- by (subst s'; by destruct (screenTrackRef s)).
  destruct (video_sender s) as [i|]; [|done].
  destruct (head _) as [videoTrack|]; [|done].
  destruct (replaceTrack_ok P); [|done]. simpl.
  by rewrite <- (replaceTrack_frame i videoTrack s').
Qed.

Lemma startScreenShare_frame s : frame (startScreenShare P s) = frame s.
Proof.
  unfold startScreenShare. destruct (getDisplayMedia P) as [[|]|]; [|done..].
  cbn -[video_sender replaceTrack].
  set (s' := set_screenTrackRef _ _).
  assert (frame s' = frame s) as <- by done.
  destruct (video_sender s') as [i|]; [|done].
  destruct (replaceTrack_ok P); [|done].
  by rewrite <- (replaceTrack_frame i (length (tracks s)) s').
Qed.

Lemma toggleScreenShare_frame s : frame (toggleScreenShare P s) = frame s.
Proof.
  unfold toggleScreenShare. destruct (isScreenSharing s).
  - apply stopScreenShare_frame.
  - by rewrite startScreenShare_frame, ensureLocalStream_frame.
Qed.

Lemma screenTrack_onended_frame s : frame (screenTrack_onended P s) = frame s.
Proof.
  unfold screenTrack_onended. destruct (screenOnended s) as [t|]; [|done].
  destruct (is_live (tracks s) t); [|done]. by rewrite stopScreenShare_frame.
Qed.

Lemma toggleVideo_frame s : frame (toggleVideo P s) = frame s.
Proof.
  unfold toggleVideo. destruct (isVideoOn s).
  - destruct (isScreenSharing s).
    + pose proof (stopScreenShare_frame s) as Hf.
      destruct (stopScreenShare P s) as [s' [|]]; simpl in *; [|done].
      rewrite <- Hf. by destruct (localStreamRef s').
    + by destruct (localStreamRef s).
  - destruct (localStreamRef s); [done|].
    by rewrite <- (startMedia_frame P true (isAudioOn s) s).
Qed.

Lemma toggleAudio_frame s : frame (toggleAudio P s) = frame s.
Proof.
  unfold toggleAudio. destruct (isAudioOn s).
  - by destruct (localStreamRef s).
  - destruct (localStreamRef s); [done|].
    by rewrite <- (startMedia_frame P (isVideoOn s) true s).
Qed.

Lemma stopMedia_frame s : frame (stopMedia s) = frame s.
Proof.
  unfold stopMedia, frame, applied.
  destruct (localStreamRef s); cbn -[stop_tracks track_stop];
    by destruct (screenTrackRef s).
Qed.

Lemma mount_frame now s : frame (mount P props now s) = frame s.
Proof. unfold mount. by rewrite ensureLocalStream_frame. Qed.

Lemma socket_disconnect_frame s :
  (isRecording s = true → is_Some (mediaRecorderRef s)) →
  frame (socket_disconnect s) = frame s
  ∨ frame (socket_disconnect s) = (false, None, None, []).
Proof.
  intros H. unfold socket_disconnect, socket_ondisconnect.
  destruct (connected s); [right|by left].
  by apply cleanupPeerConnection_frame.
Qed.

(** Closing the socket and cleaning up leaves no recorder, no remote
    stream and no accepted candidate. *)
Lemma cleanup_after_disconnect s :
  (isRecording s = true → is_Some (mediaRecorderRef s)) →
  frame (cleanupPeerConnection (socket_disconnect s)) = (false, None, None, []).
Proof.
  intros H. apply cleanupPeerConnection_frame.
  destruct (socket_disconnect_frame s H) as [Hf|Hf];
    apply frame_inv in Hf as (-> & -> & _); [done|done].
Qed.

Lemma unmount_frame s :
  (isRecording s = true → is_Some (mediaRecorderRef s)) →
  frame (unmount s) = (false, None, None, []).
Proof.
  intros H. unfold unmount. apply cleanup_after_disconnect.
  by destruct (localStreamRef s).
Qed.

Lemma set_endedCalls_frame v s : frame (set_endedCalls v s) = frame s.
Proof. reflexivity. Qed.

Lemma handleEndCall_frame s :
  (isRecording s = true → is_Some (mediaRecorderRef s)) →
  frame (handleEndCall P s) = frame s
  ∨ frame (handleEndCall P s) = (false, None, None, []).
Proof.
  intros H. unfold handleEndCall.
  assert (∀ s' returned,
            frame s' = frame s →
            frame (if returned : bool
                   then set_endedCalls
                          (endedCalls (stopMedia (cleanupPeerConnection
                                                    (socket_disconnect s'))) + 1)
                          (stopMedia (cleanupPeerConnection (socket_disconnect s')))
                   else s') = frame s
            ∨ frame (if returned
                     then set_endedCalls
                            (endedCalls (stopMedia (cleanupPeerConnection
                                                      (socket_disconnect s'))) + 1)
                            (stopMedia (cleanupPeerConnection (socket_disconnect s')))
                     else s') = (false, None, None, [])) as Hend.
  { intros s' [|] Hf; [right|by left].
    rewrite set_endedCalls_frame, stopMedia_frame.
    apply cleanup_after_disconnect.
    apply frame_inv in Hf as (-> & -> & _). exact H. }
  destruct (isScreenSharing s).
  - pose proof (stopScreenShare_frame s) as Hf.
    destruct (stopScreenShare P s) as [s' returned]. by apply Hend.
  - by apply (Hend s true).
Qed.

Lemma handleEndCall_applied s :
  applied (handleEndCall P s) = applied s ∨ applied (handleEndCall P s) = [].
Proof.
  unfold handleEndCall.
  assert (∀ s' returned,
            applied s' = applied s →
            applied (if returned : bool
                     then set_endedCalls
                            (endedCalls (stopMedia (cleanupPeerConnection
                                                      (socket_disconnect s'))) + 1)
                            (stopMedia (cleanupPeerConnection (socket_disconnect s')))
                     else s') = applied s
            ∨ applied (if returned
                       then set_endedCalls
                              (endedCalls (stopMedia (cleanupPeerConnection
                                                        (socket_disconnect s'))) + 1)
                              (stopMedia (cleanupPeerConnection (socket_disconnect s')))
                       else s') = []) as Hend.
  { intros s' [|] Hf; [right|by left].
    rewrite (applied_frame _ _ (set_endedCalls_frame _ _)).
    rewrite (applied_frame _ _ (stopMedia_frame _)).
    apply cleanupPeerConnection_applied. }
  destruct (isScreenSharing s).
  - pose proof (applied_frame _ _ (stopScreenShare_frame s)) as Hf.
    destruct (stopScreenShare P s) as [s' returned]. by apply Hend.
  - by apply (Hend s true).
Qed.

End MoreFrames.

(** *** Reachable states *)

Section Steps.

Variable P : Platform.
Variable props : Props.

Lemma recording_inv_frame s s' :
  frame s' = frame s → recording_inv s → recording_inv s'.
Proof. unfold frame, recording_inv. intros [= -> -> -> _]. done. Qed.

Lemma recording_inv_idle s :
  isRecording s = false → mediaRecorderRef s = None → recording_inv s.
Proof.
  intros H1 H2. unfold recording_inv. rewrite H1, H2.
  split; [done|]. by intros [].
Qed.

Lemma startRecording_cases s :
  isRecording s = false →
  (remoteStreamRef s = None
   ∧ startRecording P s
     = setSystemStatus (lit "Recording unavailable until the session is live.") s)
  ∨ (is_Some (remoteStreamRef s)
     ∧ remoteStreamRef (startRecording P s) = remoteStreamRef s
     ∧ applied (startRecording P s) = applied s
     ∧ (isRecording (startRecording P s) = true
        ∧ is_Some (mediaRecorderRef (startRecording P s))
        ∨ isRecording (startRecording P s) = false
          ∧ mediaRecorderRef (startRecording P s) = mediaRecorderRef s)).
Proof.
  intros Hrec. unfold startRecording. rewrite Hrec.
  destruct (buildRecordingStream_spec s) as (o & s' & -> & Ho & Hnone & Hf).
  destruct o as [stream|].
  - right. unfold frame in Hf. injection Hf as H1 H2 H3 H4.
    split; [apply Ho; eauto|].
    destruct (MediaRecorder_ok P stream recording_mime);
      [destruct (recorder_start_ok P)|]; unfold applied in *; simpl;
      (split; [done|]); (split; [done|]); eauto;
      right; by rewrite H1, H2.
  - left. rewrite (Hnone eq_refl). split; [|done].
    destruct (remoteStreamRef s); [|done]. destruct Ho as [_ Ho].
    by destruct Ho; eauto.
Qed.

Lemma handleUserLeft_frame s :
  recording_inv s → frame (handleUserLeft s) = (false, None, None, []).
Proof.
  intros [H1 H2]. unfold handleUserLeft.
  apply cleanupPeerConnection_frame. simpl.
  destruct (mediaRecorderRef s) eqn:E; [|by rewrite E].
  destruct (stopRecording_frame s) as [Hf|[? _]]; [|congruence].
  apply frame_inv in Hf as (-> & _). done.
Qed.

Lemma socket_on_inv rnd m s :
  recording_inv s → recording_inv (socket_on P props rnd m s).
Proof.
  intros Hinv.
  destruct m as [participants|socketId userName|socketId|from sdp|from sdp
                |from candidate|sender message timestamp]; simpl.
  - unfold handleExistingParticipants.
    destruct participants as [|[|c p] ?];
      try (eapply recording_inv_frame; [|done]; reflexivity).
    eapply recording_inv_frame; [|done]. by rewrite initiateOffer_frame.
  - unfold handleUserJoined. case_match; [done|].
    eapply recording_inv_frame; [|done]. by rewrite initiateOffer_frame.
  - destruct (frame_inv _ _ _ _ _ (handleUserLeft_frame s Hinv)) as (H1 & H2 & _).
    by apply recording_inv_idle.
  - eapply recording_inv_frame; [|done]. apply handleRemoteOffer_frame.
  - eapply recording_inv_frame; [|done]. by rewrite handleRemoteAnswer_frame.
  - assert (recording_inv
              (match from with
               | _ :: _ => set_remoteSocketIdRef (Some from) s
               | [] => s
               end)) as Hinv'.
    { by destruct from. }
    destruct (handleRemoteCandidate_cases P candidate
                (match from with
                 | _ :: _ => set_remoteSocketIdRef (Some from) s
                 | [] => s
                 end)) as [[-> _]|(peer & _ & _ & ->)]; [done|].
    revert Hinv'. unfold recording_inv. by destruct from.
  - unfold handleChatMessage. by case_match.
Qed.

Lemma recording_inv_reset s s' :
  frame s' = frame s ∨ frame s' = (false, None, None, []) →
  recording_inv s → recording_inv s'.
Proof.
  intros [Hf|Hf] Hinv; [by eapply recording_inv_frame|].
  apply frame_inv in Hf as (H1 & H2 & _). by apply recording_inv_idle.
Qed.

Lemma step_inv e s : recording_inv s → recording_inv (step P props e s).
Proof.
  intros Hinv. destruct e; simpl.
  - eapply recording_inv_frame; [|done]. apply mount_frame.
  - eapply recording_inv_reset; [|done]. right. apply unmount_frame, Hinv.
  - done.
  - eapply recording_inv_reset; [|done]. right. unfold socket_ondisconnect.
    apply cleanupPeerConnection_frame, Hinv.
  - by apply socket_on_inv.
  - unfold peer_ontrack. destruct (peerRef s); [|done].
    destruct Hinv as [H1 H2]. destruct inStream; split; simpl; eauto.
  - unfold peer_onicecandidate. by repeat case_match.
  - unfold peer_onconnectionstatechange. by repeat case_match.
  - destruct (isRecording s) eqn:Hrec.
    + destruct (stopRecording_frame s) as [Hf|[_ ->]]; [|done].
      apply frame_inv in Hf as (H1 & H2 & _). by apply recording_inv_idle.
    + destruct (startRecording_cases s Hrec) as [[_ ->]|(Hsome & Hr & _ & Hc)];
        [done|].
      split.
      * destruct Hc as [[_ ?]|[Hf _]]; [done|by rewrite Hf].
      * by rewrite Hr.
  - unfold recorder_ondataavailable. by repeat case_match.
  - unfold recorder_onstop. by repeat case_match.
  - unfold recording_tick. by case_match.
  - unfold sendMessage. by case_match.
  - eapply recording_inv_frame; [|done]. apply toggleAudio_frame.
  - eapply recording_inv_frame; [|done]. apply toggleVideo_frame.
  - eapply recording_inv_frame; [|done]. apply toggleScreenShare_frame.
  - eapply recording_inv_frame; [|done]. apply screenTrack_onended_frame.
  - eapply recording_inv_reset; [|done]. apply handleEndCall_frame, Hinv.
Qed.

Lemma init_inv : recording_inv init.
Proof. by apply recording_inv_idle. Qed.

End Steps.

Lemma steps_inv props es s : recording_inv s → recording_inv (steps props es s).
Proof.
  revert s. induction es as [|[P e] es IH]; intros s H; [done|].
  apply IH. by apply step_inv.
Qed.

(** C6: starting a recording while no remote stream exists creates no
    recorder, captures no chunk, touches no track and leaves
    [isRecording] as it is; with [isRecording] false, as it is in every
    state the component reaches without a remote stream, the call only
    reports that recording is unavailable. *)
Theorem startRecording_without_remote_stream P s :
  remoteStreamRef s = None →
  mediaRecorderRef (startRecording P s) = mediaRecorderRef s
  ∧ recordingChunksRef (startRecording P s) = recordingChunksRef s
  ∧ isRecording (startRecording P s) = isRecording s
  ∧ tracks (startRecording P s) = tracks s
  ∧ (isRecording s = false →
     startRecording P s
     = setSystemStatus (lit "Recording unavailable until the session is live.") s)
  ∧ (∀ props es, s = steps props es init →
                 isRecording s = false ∧ mediaRecorderRef s = None).
Proof.
  intros Hremote.
  assert (isRecording s = false →
          startRecording P s
          = setSystemStatus
              (lit "Recording unavailable until the session is live.") s) as Hfail.
  { intros Hflag.
    destruct (startRecording_cases P s Hflag) as [[_ Hs]|[Hsome _]]; [done|].
    rewrite Hremote in Hsome. by destruct Hsome. }
  destruct (isRecording s) eqn:Hflag.
  - assert (startRecording P s = s) as ->.
    { unfold startRecording. by rewrite Hflag. }
    split_and!; try done. intros props es ->.
    destruct (steps_inv props es init init_inv) as [H1 H2].
    destruct (H1 Hflag) as [r Hr]. destruct H2 as [? H2]; [eauto|]. congruence.
  - rewrite (Hfail eq_refl). simpl. split_and!; try done.
    intros props es ->. split; [done|].
    destruct (steps_inv props es init init_inv) as [_ H2].
    destruct (mediaRecorderRef _); [|done].
    destruct H2 as [? H2]; [eauto|]. congruence.
Qed.

Lemma startRecording_without_remote_stream_witness :
  startRecording Session.PA Session.client_A
  = setSystemStatus (lit "Recording unavailable until the session is live.")
      Session.client_A
  ∧ mediaRecorderRef (startRecording Session.PA Session.client_A)
    = mediaRecorderRef Session.client_A.
Proof.
  assert (remoteStreamRef Session.client_A = None) as Hnone by by vm_compute.
  destruct (startRecording_without_remote_stream Session.PA Session.client_A
              Hnone) as (H1 & _ & _ & _ & H5 & _).
  split; [|exact H1]. apply H5. by vm_compute.
Defined.

(** *** Remote candidates *)

Section Candidates.

Variable P : Platform.
Variable props : Props.

Lemma stopRecording_applied s : applied (stopRecording s) = applied s.
Proof.
  destruct (stopRecording_frame s) as [Hf|[_ ->]]; [|done].
  by apply frame_inv in Hf as (_ & _ & _ & ->).
Qed.

Lemma startRecording_applied s : applied (startRecording P s) = applied s.
Proof.
  destruct (isRecording s) eqn:Hrec.
  - unfold startRecording. by rewrite Hrec.
  - destruct (startRecording_cases P s Hrec) as [[_ ->]|(_ & _ & -> & _)]; done.
Qed.

(** A step adds a candidate to the accepted ones only when it is the
    arrival of that candidate. *)
Lemma step_applied e s x :
  x ∈ applied (step P props e s) →
  x ∈ applied s ∨ ∃ rnd from, e = Receive rnd (IceCandidate from x).
Proof.
  destruct e as [now| | | |rnd m|k inStream|candidate|state| |data
                |recorder now iso url encoded| |now newMessage| | | | |]; simpl.
  - rewrite (applied_frame _ _ (mount_frame P props now s)). auto.
  - unfold unmount. rewrite cleanupPeerConnection_applied.
    by intros ?%elem_of_nil.
  - auto.
  - unfold socket_ondisconnect. rewrite cleanupPeerConnection_applied.
    by intros ?%elem_of_nil.
  - destruct m as [participants|socketId userName|socketId|from sdp|from sdp
                  |from candidate|sender message timestamp]; simpl.
    + unfold handleExistingParticipants.
      destruct participants as [|[|c p] ?]; auto.
      rewrite (applied_frame _ _ (initiateOffer_frame P _ _)). auto.
    + unfold handleUserJoined. case_match; [auto|].
      rewrite (applied_frame _ _ (initiateOffer_frame P _ _)). auto.
    + unfold handleUserLeft. rewrite cleanupPeerConnection_applied.
      by intros ?%elem_of_nil.
    + rewrite (applied_frame _ _ (handleRemoteOffer_frame P _ _ _)). auto.
    + rewrite (applied_frame _ _ (handleRemoteAnswer_frame P _ _)). auto.
    + set (s0 := match from with
                 | _ :: _ => set_remoteSocketIdRef (Some from) s
                 | [] => s
                 end).
      assert (applied s0 = applied s) as Hs0 by by destruct from.
      destruct (handleRemoteCandidate_cases P candidate s0)
        as [[-> _]|(peer & Hpeer & _ & ->)].
      * rewrite Hs0. auto.
      * unfold applied at 1. simpl. rewrite <- Hs0. unfold applied.
        rewrite Hpeer. simpl.
        intros [?|Hx%list_elem_of_singleton]%elem_of_app; subst; eauto.
    + unfold handleChatMessage. case_match; auto.
  - unfold peer_ontrack. destruct (peerRef s) eqn:E; [|auto].
    unfold applied. destruct inStream; simpl; rewrite E; auto.
  - unfold peer_onicecandidate. repeat case_match; auto.
  - unfold peer_onconnectionstatechange. repeat case_match; auto.
  - destruct (isRecording s).
    + rewrite stopRecording_applied. auto.
    + rewrite startRecording_applied. auto.
  - unfold recorder_ondataavailable. repeat case_match; auto.
  - unfold recorder_onstop. repeat case_match; auto.
  - unfold recording_tick. case_match; auto.
  - unfold sendMessage. case_match; auto.
  - rewrite (applied_frame _ _ (toggleAudio_frame P s)). auto.
  - rewrite (applied_frame _ _ (toggleVideo_frame P s)). auto.
  - rewrite (applied_frame _ _ (toggleScreenShare_frame P s)). auto.
  - rewrite (applied_frame _ _ (screenTrack_onended_frame P s)). auto.
  - destruct (handleEndCall_applied P s) as [-> | ->]; [auto|].
    by intros ?%elem_of_nil.
Qed.

End Candidates.

Lemma steps_applied props es s c :
  Forall (λ pe, ∀ rnd from, pe.2 ≠ Receive rnd (IceCandidate from c)) es →
  c ∉ applied s → c ∉ applied (steps props es s).
Proof.
  intros Hes. revert s.
  induction Hes as [|[P e] es He Hes IH]; intros s Hc; [done|].
  apply IH. intros [?|(rnd & from & ->)]%step_applied; [done|].
  by eapply He.
Qed.

(** C3, as the code has it: the client keeps no queue of candidates.  A
    candidate goes to [addIceCandidate] of the current peer connection
    at once; when the platform accepts it, it is applied on the spot.
    When there is no peer connection, or the platform rejects it (as
    WebRTC does while no remote description is set), the candidate is
    dropped: the state keeps no trace of it beyond the sender's handle,
    and whatever events follow, short of the same candidate arriving
    again, it is never applied. *)
Theorem dropped_candidate_never_applied P props rnd from c s :
  let s0 := match from with
            | _ :: _ => set_remoteSocketIdRef (Some from) s
            | [] => s
            end in
  let s1 := step P props (Receive rnd (IceCandidate from c)) s in
  (∀ peer, peerRef s = Some peer → addIceCandidate_ok P peer c = true →
           s1 = set_peerRef (Some (pc_addCandidate c peer)) s0
           ∧ applied s1 = applied s ++ [c])
  ∧ (peerRef s = None
     ∨ (∃ peer, peerRef s = Some peer ∧ addIceCandidate_ok P peer c = false) →
     s1 = s0
     ∧ ∀ es, Forall (λ pe, ∀ rnd' from',
                               pe.2 ≠ Receive rnd' (IceCandidate from' c)) es →
             c ∉ applied s →
             c ∉ applied (steps props es s1)).
Proof.
  intros s0 s1.
  assert (peerRef s0 = peerRef s) as Hp by (subst s0; by destruct from).
  assert (applied s0 = applied s) as Ha by (unfold applied; by rewrite Hp).
  assert (s1 = handleRemoteCandidate P c s0) as Hs1 by done.
  split.
  - intros peer Hpeer Hok. rewrite Hs1. unfold handleRemoteCandidate.
    rewrite Hp, Hpeer, Hok. split; [done|].
    unfold applied. simpl. by rewrite Hpeer.
  - intros Hdrop.
    assert (s1 = s0) as ->.
    { rewrite Hs1. unfold handleRemoteCandidate. rewrite Hp.
      destruct Hdrop as [->|(peer & -> & ->)]; done. }
    split; [done|]. intros es Hes Hc. apply steps_applied; [done|].
    by rewrite Ha.
Qed.

Lemma dropped_candidate_never_applied_witness :
  let s1 := step Session.PA (Session.props_of "Alice")
              (Receive [] (IceCandidate Session.B Session.cand)) Session.client_A in
  s1 = Session.client_A
  ∧ Session.cand
      ∉ applied (steps (Session.props_of "Alice")
                   [(Session.PA, Receive [] (Answer Session.B Session.answer_B))]
                   s1).
Proof.
  intros s1.
  destruct (proj2 (dropped_candidate_never_applied Session.PA
                     (Session.props_of "Alice") [] Session.B Session.cand
                     Session.client_A)) as [H1 H2].
  - right. eexists. split; by vm_compute.
  - split; [exact H1|]. apply H2.
    + repeat constructor. intros rnd' from'. discriminate.
    + vm_compute. by intros ?%elem_of_nil.
Defined.

(** C3 fails as stated: [A] has sent its offer and has no remote
    description yet when a candidate of [B] arrives; the candidate leaves
    no trace, and once [B]'s answer has set the remote description the
    peer connection still holds no candidate. *)
Lemma early_candidate_lost :
  let s0 := Session.client_A in
  let s1 := step Session.PA (Session.props_of "Alice")
              (Receive [] (IceCandidate Session.B Session.cand)) s0 in
  let s2 := step Session.PA (Session.props_of "Alice")
              (Receive [] (Answer Session.B Session.answer_B)) s1 in
  (remoteDescription <$> peerRef s0) = Some None
  ∧ s1 = s0
  ∧ (remoteDescription <$> peerRef s2) = Some (Some Session.answer_B)
  ∧ (candidates <$> peerRef s2) = Some [].
Proof. by vm_compute. Qed.

(** *** Recording and the tracks of the call *)

Lemma track_stop_lookup t (h : Heap) u :
  track_stop t h !! u = if decide (u = t) then ended <$> h !! u else h !! u.
Proof.
  unfold track_stop. destruct (decide (u = t)) as [->|Hne].
  - destruct (h !! t) as [tr|] eqn:E; [|by rewrite E].
    rewrite list_lookup_insert_eq by by eapply lookup_lt_Some. done.
  - destruct (h !! t); [|done]. by rewrite list_lookup_insert_ne.
Qed.

Lemma stop_tracks_lookup (l : Stream) (h : Heap) u :
  stop_tracks l h !! u = if decide (u ∈ l) then ended <$> h !! u else h !! u.
Proof.
  unfold stop_tracks. revert h. induction l as [|t l IH]; intros h; cbn [foldl].
  - case_decide as Hin; [by apply elem_of_nil in Hin|done].
  - rewrite IH, track_stop_lookup.
    destruct (decide (u = t)) as [->|Hne].
    + rewrite (decide_True (P := t ∈ t :: l)) by by left.
      case_decide; [|done]. by destruct (h !! t).
    + destruct (decide (u ∈ l)).
      * rewrite decide_True; [done|]. by right.
      * rewrite decide_False; [done|]. by intros [?|?]%elem_of_cons.
Qed.

Lemma elem_of_addTrack x t (m : Stream) : x ∈ addTrack t m ↔ x = t ∨ x ∈ m.
Proof.
  unfold addTrack. destruct (decide (t ∈ m)).
  - split; [auto|]. by intros [->|?].
  - rewrite elem_of_app, list_elem_of_singleton. tauto.
Qed.

Lemma elem_of_merged x (l m : Stream) :
  x ∈ foldl (λ m track, addTrack track m) m l ↔ x ∈ m ∨ x ∈ l.
Proof.
  revert m. induction l as [|t l IH]; intros m; cbn [foldl].
  - split; [auto|]. by intros [?|?%elem_of_nil].
  - rewrite IH, elem_of_addTrack, elem_of_cons. tauto.
Qed.

(** Cloning the local audio tracks only appends to the store and to the
    merged stream. *)
Lemma clone_fold_spec (l : list nat) (h h' : Heap) (m m' : Stream) :
  foldl (λ '(h, m) track,
           let '(h, c) := track_clone track h in (h, addTrack c m))
        (h, m) l = (h', m') →
  (∃ ext, h' = h ++ ext)
  ∧ (∀ x, x ∈ m → x ∈ m')
  ∧ (∀ x, x ∈ m' → x ∈ m ∨ length h ≤ x).
Proof.
  revert h m. induction l as [|t l IH]; intros h m; cbn [foldl].
  - intros [= <- <-]. split; [by exists []; rewrite app_nil_r|]. auto.
  - unfold track_clone at 2, alloc. intros Hf.
    apply IH in Hf as ([ext ->] & Hin & Hout). split_and!.
    + eexists. by rewrite <- app_assoc.
    + intros x Hx. apply Hin, elem_of_addTrack. auto.
    + intros x Hx. apply Hout in Hx as [Hx|Hx].
      * apply elem_of_addTrack in Hx as [->|?]; auto.
      * right. rewrite length_app in Hx. simpl in Hx. lia.
Qed.

(** When the recorder has stopped, the artifact handed to
    [onRecordingReady] holds the encoded chunks, a file name made from
    the time stamp, the duration counted so far and the recorder's MIME
    type. *)
Lemma recorder_onstop_exports props recorder now iso url encoded dataUrl s :
  onRecordingReady props = true →
  encoded (concat (recordingChunksRef s)) = Some dataUrl →
  exported (recorder_onstop props recorder now iso url encoded s)
  = exported s
    ++ [{| id := lit (pretty now);
           filename := lit "session-" ++ replace_colon_dot iso ++ lit ".webm";
           duration := recordingDurationRef s;
           createdAt := iso;
           mimeType := rec_mimeType recorder;
           dataUrl := dataUrl |}].
Proof. intros Hcb Henc. unfold recorder_onstop. by rewrite Hcb, Henc. Qed.

(** C4, where the code departs from it: a recording is started on a call
    whose remote stream holds the track [t] and then stopped.  The call
    itself goes on (the remote stream and the peer connection are what
    they were), the tracks outside the remote stream, the local ones
    among them, are untouched, but [t], a track of the live call, has
    been stopped. *)
Theorem stopRecording_ends_remote_tracks P s remote t tr :
  isRecording s = false →
  remoteStreamRef s = Some remote → t ∈ remote → tracks s !! t = Some tr →
  (∀ stream mime, MediaRecorder_ok P stream mime = true) →
  recorder_start_ok P = true →
  let s1 := startRecording P s in
  let s2 := stopRecording s1 in
  isRecording s1 = true
  ∧ remoteStreamRef s2 = Some remote
  ∧ peerRef s2 = peerRef s
  ∧ localStreamRef s2 = localStreamRef s
  ∧ tracks s2 !! t = Some (ended tr)
  ∧ (∀ u tu, u ∉ remote → tracks s !! u = Some tu → tracks s2 !! u = Some tu).
Proof.
  intros Hrec Hremote Ht Htr Hctor Hstart s1 s2. subst s2 s1.
  unfold startRecording, buildRecordingStream. rewrite Hrec, Hremote.
  set (merged := foldl (λ m track, addTrack track m) [] remote).
  assert (∀ x, x ∈ merged ↔ x ∈ remote) as Hmerged.
  { intros x. subst merged. rewrite elem_of_merged.
    split; [by intros [?%elem_of_nil|?]|auto]. }
  destruct (localStreamRef s) as [localStream|] eqn:Hlocal.
  - destruct (foldl _ (tracks s, merged) _) as [h merged'] eqn:Hfold.
    apply clone_fold_spec in Hfold as ([ext ->] & Hin & Hout).
    rewrite Hctor, Hstart. unfold stopRecording. cbn -[stop_tracks].
    rewrite Hremote, Hlocal. split_and!; try done.
    + rewrite stop_tracks_lookup, decide_True by by apply Hin, Hmerged.
      rewrite lookup_app_l by by eapply lookup_lt_Some. by rewrite Htr.
    + intros u tu Hu Hlook. rewrite stop_tracks_lookup, decide_False.
      * rewrite lookup_app_l by by eapply lookup_lt_Some. done.
      * intros [?%Hmerged|Hge]%Hout; [done|].
        apply lookup_lt_Some in Hlook. lia.
  - rewrite Hctor, Hstart. unfold stopRecording. cbn -[stop_tracks].
    rewrite Hremote, Hlocal. split_and!; try done.
    + rewrite stop_tracks_lookup, decide_True by by apply Hmerged.
      by rewrite Htr.
    + intros u tu Hu Hlook. rewrite stop_tracks_lookup, decide_False; [done|].
      by rewrite Hmerged.
Qed.

Lemma stopRecording_ends_remote_tracks_witness :
  let s := Session.in_call in
  let s2 := stopRecording (startRecording Session.PA s) in
  remoteStreamRef s2 = Some [2; 3]
  ∧ tracks s !! 2 = Some {| kind := Video; enabled := true; readyState := Live |}
  ∧ tracks s2 !! 2 = Some {| kind := Video; enabled := true; readyState := Ended |}
  ∧ tracks s2 !! 1 = Some {| kind := Audio; enabled := true; readyState := Live |}.
Proof.
  intros s s2.
  destruct (stopRecording_ends_remote_tracks Session.PA s [2; 3] 2
              {| kind := Video; enabled := true; readyState := Live |})
    as (_ & H1 & _ & _ & H2 & H3);
    [by vm_compute|by vm_compute| |by vm_compute|done|done|].
  - apply (bool_decide_unpack _). by vm_compute.
  - split; [exact H1|]. split; [by vm_compute|]. split; [exact H2|].
    apply H3; [|by vm_compute].
    intros Hin. by apply (bool_decide_pack _) in Hin.
Defined.

End ClientFacts.
